(** * Code 128-B encoder, SVG renderer and horizontal-trim core: a shallow embedding

    The development follows the units of the repository that hold the
    algorithms:

    - the Code 128 unit: [assertCodeSetBCompatible], [computeCodesForSetB],
      [codesToModules], [encodeCode128BToModules], [renderCode128BToSvg],
      [escapeXml];
    - the trim core: [computeHorizontalBounds], [cropHorizontalBuffer];
    - the copy of the scanner in the HarmonyOS unit;
    - the PixelMap trimming unit, [scanEffectiveHorizontalBounds],
      [dealWithCodel128] and [trimHorizontalMarginsByBlack], with its
      self-test.

    Modelling conventions.

    - A JavaScript string is the list of its UTF-16 code units, each a [Z];
      [js] turns a Rocq literal into such a list.
    - A JavaScript number is an IEEE 754 double.  Where the code only ever
      holds an integer in it (an index, a character code, a module width, a
      checksum, an image dimension) the number is the [Z] it holds, and an
      addition or a product whose exact result may leave the doubles is
      rounded by [roundDouble].  The numeric render options, which may be any
      double, are primitive binary64 [float]s, and what the renderer computes
      from them is computed with the operations of [PrimFloat].  The coverage
      ratio of the scanner is a rational [Q].
    - A call either returns, throws, or runs out of fuel: [outcome].  Fuel is
      only consumed by the scanner, whose row loop the code does not bound.
    - ArrayBuffers live in a store keyed by address, so that the same buffer
      and a new buffer with the same bytes are different things. *)

From Stdlib Require Import ZArith QArith Qround Qminmax String Ascii Lia.
From Stdlib Require DecimalString HexadecimalString.
From Stdlib Require PrimFloat FloatOps SpecFloat Uint63.
From stdpp Require Import base option list gmap.

Open Scope Z_scope.

(** ** JavaScript values shared by both units *)

Module Js.
Import PrimFloat.

Abbreviation jsstring := (list Z) (only parsing).

Definition codeUnit (a : ascii) : Z := Z.of_N (N_of_ascii a).

Definition js (s : string) : jsstring := codeUnit <$> list_ascii_of_string s.

(** The double-quote character, U+0022. *)
Definition dq : jsstring := [34].

Inductive exn : Type :=
| TypeError (msg : jsstring)
| RangeError
| Error (msg : jsstring).

Inductive outcome (A : Type) : Type :=
| Return (a : A)
| Throw (e : exn)
| OutOfFuel.

Arguments Return {A} a.
Arguments Throw {A} e.
Arguments OutOfFuel {A}.

#[global] Instance outcome_bind : MBind outcome := fun A B k m =>
  match m with
  | Return a => k a
  | Throw e => Throw e
  | OutOfFuel => OutOfFuel
  end.

#[global] Instance outcome_ret : MRet outcome := @Return.

(** The decimal digits of an integer, after a minus sign when it is
    negative. *)
Definition decimal (z : Z) : jsstring :=
  js (DecimalString.NilZero.string_of_int (Z.to_int z)).

(** The double nearest to the integer [z], ties going to the even mantissa:
    the result of an addition or a product of integer-valued doubles whose
    exact value is [z].  Every integer up to 2^53 in magnitude is a double.
    (A double overflows to Infinity from 2^1024 on; no sum or product of
    this program comes near.) *)
Definition roundDouble (z : Z) : Z :=
  let a := Z.abs z in
  if a <=? 2 ^ 53 then z
  else
    let e := Z.log2 a - 52 in
    let q := Z.shiftr a e in
    let r := a - Z.shiftl q e in
    let half := 2 ^ (e - 1) in
    let q := if r <? half then q
             else if half <? r then q + 1
             else if Z.even q then q else q + 1 in
    Z.sgn z * Z.shiftl q e.

(** An integer-valued double, held as an integer, as a [float]. *)
Definition numberOfZ (z : Z) : float :=
  let a := Z.abs z in
  let e := Z.max 0 (Z.log2 a - 52) in
  let f := FloatOps.Z.ldexp (of_uint63 (Uint63.of_Z (Z.shiftr a e))) e in
  if z <? 0 then opp f else f.

(** [Math.max(a, b)]: NaN when either is NaN, and [+0] above [-0]. *)
Definition mathMax (a b : float) : float :=
  if is_nan a || is_nan b then nan
  else if ltb a b then b
  else if ltb b a then a
  else if get_sign a then b else a.

(** *** Number::toString

    A finite non-zero double is printed with the fewest decimal digits that
    still round to it and, among those, the digits nearest to its value.
    The double is [m * 2 ^ e], as [Prim2SF] gives it. *)

Definition pow2 (n : Z) : Q :=
  if n <? 0 then 1 # Z.to_pos (2 ^ (- n)) else inject_Z (2 ^ n).

Definition pow10 (n : Z) : Q :=
  if n <? 0 then 1 # Z.to_pos (10 ^ (- n)) else inject_Z (10 ^ n).

Definition Qlt_bool (a b : Q) : bool := negb (Qle_bool b a).

Section Shortest.
Variables (m : positive) (e : Z).

Definition value : Q := (inject_Z (Zpos m) * pow2 e)%Q.

(** Half the distance to the double below, and to the double above. *)
Definition halfBelow : Q :=
  if (Zpos m =? 2 ^ 52) && (-1074 <? e) then pow2 (e - 2) else pow2 (e - 1).

Definition halfAbove : Q := pow2 (e - 1).

(** The real [v] rounds to this double; a tie does when the mantissa is
    even. *)
Definition roundsHere (v : Q) : bool :=
  if Z.even (Zpos m)
  then Qle_bool (value - halfBelow)%Q v && Qle_bool v (value + halfAbove)%Q
  else Qlt_bool (value - halfBelow)%Q v && Qlt_bool v (value + halfAbove)%Q.

Fixpoint decimalExponentFrom (fuel : nat) (n : Z) : Z :=
  match fuel with
  | O => n
  | S fuel' =>
      if Qle_bool (pow10 n) value then decimalExponentFrom fuel' (n + 1) else n
  end.

(** The [n] with [10 ^ (n - 1) <= value < 10 ^ n], searched upwards from an
    estimate that is at most two below it. *)
Definition decimalExponent : Z :=
  decimalExponentFrom 8 ((Z.log2 (Zpos m) + e) * 30103 / 100000 - 1).

(** The [k]-digit candidates [s] with [s * 10 ^ (n - k)] next to the value:
    the one that rounds here, the nearer one when both do. *)
Definition digitsOfLength (n k : Z) : option (Z * Z) :=
  let unit := pow10 (n - k) in
  let s1 := Qfloor (value / unit)%Q in
  let s2 := s1 + 1 in
  let v1 := (inject_Z s1 * unit)%Q in
  let v2 := (inject_Z s2 * unit)%Q in
  let pick (s : Z) :=
    if s =? 10 ^ k then Some (10 ^ (k - 1), n + 1) else Some (s, n) in
  match roundsHere v1, roundsHere v2 with
  | true, false => pick s1
  | false, true => pick s2
  | false, false => None
  | true, true =>
      let d1 := (value - v1)%Q in
      let d2 := (v2 - value)%Q in
      if Qlt_bool d1 d2 then pick s1
      else if Qlt_bool d2 d1 then pick s2
      else if Z.even s1 then pick s1 else pick s2
  end.

Fixpoint shortestFrom (fuel : nat) (n k : Z) : Z * Z :=
  match fuel with
  | O => (Zpos m, n)
  | S fuel' =>
      match digitsOfLength n k with
      | Some r => r
      | None => shortestFrom fuel' n (k + 1)
      end
  end.

(** The digits [s] and the exponent [n]: the value prints as
    [0.s * 10 ^ n].  Seventeen digits always suffice. *)
Definition shortestDigits : Z * Z := shortestFrom 17 decimalExponent 1.

End Shortest.

Definition zeros (n : Z) : jsstring := replicate (Z.to_nat n) 48.

(** The layout of the digits: plain up to 21 integer digits and down to six
    zeros after the point, with an exponent beyond. *)
Definition formatDigits (digits : jsstring) (n : Z) : jsstring :=
  let k := Z.of_nat (length digits) in
  if (k <=? n) && (n <=? 21) then digits ++ zeros (n - k)
  else if (0 <? n) && (n <=? 21)
  then take (Z.to_nat n) digits ++ js "." ++ drop (Z.to_nat n) digits
  else if (-6 <? n) && (n <=? 0)
  then js "0." ++ zeros (- n) ++ digits
  else
    let exponent :=
      (if n - 1 <? 0 then js "-" else js "+") ++ decimal (Z.abs (n - 1)) in
    if k =? 1 then digits ++ js "e" ++ exponent
    else take 1 digits ++ js "." ++ drop 1 digits ++ js "e" ++ exponent.

(** What a template literal puts for a number. *)
Definition doubleToString (x : float) : jsstring :=
  match FloatOps.Prim2SF x with
  | SpecFloat.S754_nan => js "NaN"
  | SpecFloat.S754_zero _ => js "0"
  | SpecFloat.S754_infinity s => (if s then js "-" else []) ++ js "Infinity"
  | SpecFloat.S754_finite s m e =>
      let '(d, n) := shortestDigits m e in
      (if s then js "-" else []) ++ formatDigits (decimal d) n
  end.

(** The same for an integer-valued number: plain decimal digits below
    10^21. *)
Definition numberToString (z : Z) : jsstring :=
  if Z.abs z <? 10 ^ 21 then decimal z else doubleToString (numberOfZ z).

(** [n.toString(16)] on an integer-valued number. *)
Definition toString16 (z : Z) : jsstring :=
  (if z <? 0 then js "-" else []) ++
  js (HexadecimalString.NilZero.string_of_uint (N.to_hex_uint (Z.abs_N z))).

(** [String.prototype.toUpperCase], on the ASCII letters (all that a
    hexadecimal numeral contains). *)
Definition toUpperCase (s : jsstring) : jsstring :=
  (fun c => if (97 <=? c) && (c <=? 122) then c - 32 else c) <$> s.

End Js.

(** ** code128.ts *)

Module Code128.
Import Js PrimFloat.

Record Code128RenderOptions : Type := {
  moduleWidth : option float;
  height : option float;
  quietZone : option float;
  background : option jsstring;
  barColor : option jsstring;
  displayValue : option bool;
  fontFamily : option jsstring;
  fontSize : option float;
  textMargin : option float
}.

Definition CODE128_PATTERNS : list string := [
  "212222";"222122";"222221";"121223";"121322";"131222";"122213";"122312";"132212";"221213";
  "221312";"231212";"112232";"122132";"122231";"113222";"123122";"123221";"223211";"221132";
  "221231";"213212";"223112";"312131";"311222";"321122";"321221";"312212";"322112";"322211";
  "212123";"212321";"232121";"111323";"131123";"131321";"112313";"132113";"132311";"211313";
  "231113";"231311";"112133";"112331";"132131";"113123";"113321";"133121";"313121";"211331";
  "231131";"213113";"213311";"213131";"311123";"311321";"331121";"312113";"312311";"332111";
  "314111";"221411";"431111";"111224";"111422";"121124";"121421";"141122";"141221";"112214";
  "112412";"122114";"122411";"142112";"142211";"241211";"221114";"413111";"241112";"134111";
  "111242";"121142";"121241";"114212";"124112";"124211";"411212";"421112";"421211";"212141";
  "214121";"412121";"111143";"111341";"131141";"114113";"114311";"411113";"411311";"113141";
  "114131";"311141";"411131";"211412";"211214";"211232";"2331112"
]%string.

Definition START_CODE_B : Z := 104.
Definition STOP_CODE : Z := 106.

(** The message of the error thrown for the character [code] at [i]. *)
Definition unsupportedMessage (i code : Z) : jsstring :=
  js "Character at index " ++ numberToString i ++ js " (U+" ++
  toUpperCase (toString16 code) ++ js ") not supported by Code 128-B".

(** The [for] loop of [assertCodeSetBCompatible]: [rest] is the text from
    index [i] on, so its head is [text.charCodeAt(i)]. *)
Fixpoint assertLoop (rest : jsstring) (i : Z) : outcome unit :=
  match rest with
  | [] => Return tt
  | code :: rest' =>
      if (code <? 32) || (code >? 126)
      then Throw (Error (unsupportedMessage i code))
      else assertLoop rest' (i + 1)
  end.

Definition assertCodeSetBCompatible (text : jsstring) : outcome unit :=
  assertLoop text 0.

(** First loop of [computeCodesForSetB]: [codes.push(charCodeAt(i) - 32)]. *)
Fixpoint pushCodes (codes : list Z) (rest : jsstring) : list Z :=
  match rest with
  | [] => codes
  | c :: rest' => pushCodes (codes ++ [c - 32]) rest'
  end.

(** Second loop: [checksum += (charCodeAt(i) - 32) * (i + 1)].  The product
    and the sum are doubles, so each is rounded once it passes 2^53; the
    index stays exact, a string being shorter than 2^53. *)
Fixpoint checksumLoop (checksum : Z) (rest : jsstring) (i : Z) : Z :=
  match rest with
  | [] => checksum
  | c :: rest' =>
      checksumLoop (roundDouble (checksum + roundDouble ((c - 32) * (i + 1))))
        rest' (i + 1)
  end.

(** JavaScript's [%] truncates towards zero and is exact: [Z.rem]. *)
Definition computeCodesForSetB (text : jsstring) : list Z :=
  let codes := pushCodes [START_CODE_B] text in
  let checksum := checksumLoop START_CODE_B text 0 in
  let checksum := Z.rem checksum 103 in
  let codes := codes ++ [checksum] in
  codes ++ [STOP_CODE].

(** [CODE128_PATTERNS[code]]: [undefined] outside the table. *)
Definition patternAt (code : Z) : option string :=
  if code <? 0 then None else CODE128_PATTERNS !! Z.to_nat code.

(** [Number(ch)] for a one-character string holding a decimal digit. *)
Definition digitValue (a : ascii) : Z := codeUnit a - 48.

Definition patternNotFound (code : Z) : exn :=
  Error (js "Pattern not found for code " ++ numberToString code).

Fixpoint codesToModulesLoop (codes : list Z) (modules : list Z) : outcome (list Z) :=
  match codes with
  | [] => Return modules
  | code :: codes' =>
      match patternAt code with
      | None => Throw (patternNotFound code)
      | Some EmptyString => Throw (patternNotFound code)
      | Some pattern =>
          codesToModulesLoop codes'
            (modules ++ (digitValue <$> list_ascii_of_string pattern))
      end
  end.

Definition codesToModules (codes : list Z) : outcome (list Z) :=
  codesToModulesLoop codes [].

Definition encodeCode128BToModules (text : jsstring) : outcome (list Z) :=
  assertCodeSetBCompatible text ;;
  let codes := computeCodesForSetB text in
  codesToModules codes.

(** [value.replace(/c/g, by)] for a one-character pattern. *)
Definition replaceAll (c : Z) (by_ : jsstring) (value : jsstring) : jsstring :=
  mjoin ((fun u => if u =? c then by_ else [u]) <$> value).

Definition escapeXml (value : jsstring) : jsstring :=
  replaceAll 39 (js "&apos;")
    (replaceAll 34 (js "&quot;")
      (replaceAll 62 (js "&gt;")
        (replaceAll 60 (js "&lt;")
          (replaceAll 38 (js "&amp;") value)))).

(** The template fragment made of a space, [name], an equals sign and
    [value] between double quotes. *)
Definition attr (name : string) (value : jsstring) : jsstring :=
  js " " ++ js name ++ js "=" ++ dq ++ value ++ dq.

(** The [rect] element of one bar, with its attributes [x], [y], [width],
    [height] and [fill], in the order of the source template. *)
Definition barRect (x wPx barsHeight : float) (barColor : jsstring) : jsstring :=
  js "<rect" ++ attr "x" (doubleToString x) ++ attr "y" (js "0") ++
  attr "width" (doubleToString wPx) ++ attr "height" (doubleToString barsHeight) ++
  attr "fill" barColor ++ js "/>".

(** The loop [for (const w of modules)] with its three variables.  A module
    is a digit of the table; the module width and [x] are any doubles. *)
Fixpoint barsLoop (modules : list Z) (moduleWidth barsHeight : float)
    (barColor : jsstring) (x : float) (isBar : bool) (svgBars : jsstring)
    : jsstring :=
  match modules with
  | [] => svgBars
  | w :: modules' =>
      let wPx := mul (numberOfZ w) moduleWidth in
      let svgBars :=
        if isBar then svgBars ++ barRect x wPx barsHeight barColor else svgBars in
      barsLoop modules' moduleWidth barsHeight barColor (add x wPx) (negb isBar)
        svgBars
  end.

(** [modules.reduce((acc, m) => acc + m, 0)], a sum of integers. *)
Definition sumModules (modules : list Z) : Z :=
  foldl (fun acc m => roundDouble (acc + m)) 0 modules.

Definition renderCode128BToSvg (text : jsstring) (options : Code128RenderOptions)
    : outcome jsstring :=
  let moduleWidth := default 2%float (moduleWidth options) in
  let height := default 60%float (height options) in
  let quietZone := default 10%float (quietZone options) in
  let background := default (js "#ffffff") (background options) in
  let barColor := default (js "#000000") (barColor options) in
  let displayValue := default false (displayValue options) in
  let fontFamily := default (js "monospace") (fontFamily options) in
  let fontSize := default 14%float (fontSize options) in
  let textMargin := default 4%float (textMargin options) in
  modules ← encodeCode128BToModules text;
  let totalModules := add (numberOfZ (sumModules modules)) (mul quietZone 2) in
  let barsHeight :=
    if displayValue then mathMax 0 (sub (sub height fontSize) textMargin)
    else height in
  let widthPx := mul totalModules moduleWidth in
  let heightPx := height in
  let x := mul quietZone moduleWidth in
  let isBar := true in
  let svgBars := barsLoop modules moduleWidth barsHeight barColor x isBar [] in
  let svgText :=
    if displayValue then
      let textY := add (add barsHeight textMargin) (mul fontSize 0x1.999999999999ap-1) in
      let textX := div widthPx 2 in
      let escaped := escapeXml text in
      js "<text" ++ attr "x" (doubleToString textX) ++
      attr "y" (doubleToString textY) ++
      attr "text-anchor" (js "middle") ++
      attr "font-family" (escapeXml fontFamily) ++
      attr "font-size" (doubleToString fontSize) ++ js ">" ++ escaped ++
      js "</text>"
    else [] in
  let svg :=
    (js "<?xml" ++ attr "version" (js "1.0") ++ attr "encoding" (js "UTF-8") ++
     js "?>" ++ [10]) ++
    (js "<svg" ++ attr "xmlns" (js "http://www.w3.org/2000/svg") ++
     attr "width" (doubleToString widthPx) ++ attr "height" (doubleToString heightPx) ++
     attr "viewBox" (js "0 0 " ++ doubleToString widthPx ++ js " " ++
                     doubleToString heightPx) ++
     attr "shape-rendering" (js "crispEdges") ++ js ">") ++
    (js "<rect" ++ attr "x" (js "0") ++ attr "y" (js "0") ++
     attr "width" (js "100%") ++ attr "height" (js "100%") ++
     attr "fill" background ++ js "/>") ++
    svgBars ++ svgText ++ js "</svg>" in
  Return svg.

End Code128.

(** ** Specification-level notions for the encoder *)

Module EncoderSpec.
Import Js PrimFloat.

(** Printable ASCII, the Subset-B domain. *)
Definition inSetB (c : Z) : Prop := 32 <= c <= 126.

(** [text.charCodeAt(i)] for an index inside the string. *)
Definition charCodeAt (text : jsstring) (i : nat) : Z := default 0 (text !! i).

Definition sumZ (l : list Z) : Z := foldr Z.add 0 l.

(** [Σ_{i=0}^{n-1} (charCodeAt(i) - 32) × (i + 1)]. *)
Definition weightedSum (text : jsstring) : Z :=
  sumZ ((fun i => (charCodeAt text i - 32) * (Z.of_nat i + 1)) <$> seq 0 (length text)).

Definition specChecksum (text : jsstring) : Z :=
  (104 + weightedSum text) mod 103.

(** The checksum loop in exact arithmetic. *)
Fixpoint exactLoop (checksum : Z) (rest : jsstring) (i : Z) : Z :=
  match rest with
  | [] => checksum
  | c :: rest' => exactLoop (checksum + (c - 32) * (i + 1)) rest' (i + 1)
  end.

Definition validCode (code : Z) : bool :=
  match Code128.patternAt code with
  | Some (String _ _) => true
  | _ => false
  end.

(** Reading the markup back. *)

Fixpoint startsWith (p s : jsstring) : bool :=
  match p, s with
  | [], _ => true
  | _ :: _, [] => false
  | a :: p', b :: s' => (a =? b) && startsWith p' s'
  end.

(** What follows the first occurrence of [key] in [s]. *)
Fixpoint afterFirst (key s : jsstring) : option jsstring :=
  match s with
  | [] => None
  | _ :: s' => if startsWith key s then Some (drop (length key) s) else afterFirst key s'
  end.

Fixpoint upToQuote (s : jsstring) : jsstring :=
  match s with
  | [] => []
  | c :: s' => if c =? 34 then [] else c :: upToQuote s'
  end.

(** The value of the first attribute [name] of the markup, which is an
    attribute of its root element when [name] is [width] or [height]. *)
Definition declaredAttr (name : string) (svg : jsstring) : option jsstring :=
  upToQuote <$> afterFirst (js " " ++ js name ++ js "=" ++ dq) svg.

Fixpoint isInfixOf (p s : jsstring) : bool :=
  match s with
  | [] => startsWith p []
  | _ :: s' => startsWith p s || isInfixOf p s'
  end.

(** The characters of a printed integer: a minus sign or a decimal digit. *)
Definition numeralChar (c : Z) : Prop := c = 45 \/ 48 <= c <= 57.

(** No [<], [>], double or single quote. *)
Definition markupFree (c : Z) : Prop := c <> 60 /\ c <> 62 /\ c <> 34 /\ c <> 39.

(** The character [}] 13,920,000 times. *)
Definition longText : jsstring := replicate (Z.to_nat 13920000) 125.

(** Neither a space nor a double quote. *)
Definition plainChar (c : Z) : Prop := c <> 32 /\ c <> 34.

(** Options that only set the two fill colours: the bars to a less-than
    sign, the background to a double quote. *)
Definition rawFills : Code128.Code128RenderOptions :=
  {| Code128.moduleWidth := None; Code128.height := None; Code128.quietZone := None;
     Code128.background := Some dq; Code128.barColor := Some (js "<");
     Code128.displayValue := None; Code128.fontFamily := None;
     Code128.fontSize := None; Code128.textMargin := None |}.

(** Options that only set the module width, to the double nearest one
    tenth. *)
Definition tenthWide : Code128.Code128RenderOptions :=
  {| Code128.moduleWidth := Some 0x1.999999999999ap-4%float;
     Code128.height := None; Code128.quietZone := None;
     Code128.background := None; Code128.barColor := None;
     Code128.displayValue := None; Code128.fontFamily := None;
     Code128.fontSize := None; Code128.textMargin := None |}.

(** The same with a module width of 10^21, and of the double nearest 1.2. *)
Definition hugeWide : Code128.Code128RenderOptions :=
  {| Code128.moduleWidth := Some 0x1.b1ae4d6e2ef5p+69%float;
     Code128.height := None; Code128.quietZone := None;
     Code128.background := None; Code128.barColor := None;
     Code128.displayValue := None; Code128.fontFamily := None;
     Code128.fontSize := None; Code128.textMargin := None |}.

Definition sixFifthsWide : Code128.Code128RenderOptions :=
  {| Code128.moduleWidth := Some 0x1.3333333333333p+0%float;
     Code128.height := None; Code128.quietZone := None;
     Code128.background := None; Code128.barColor := None;
     Code128.displayValue := None; Code128.fontFamily := None;
     Code128.fontSize := None; Code128.textMargin := None |}.

End EncoderSpec.

(** ** trimCore.js *)

Module TrimCore.
Import Js.

Abbreviation addr := nat (only parsing).

(** The store of ArrayBuffers: address to bytes. *)
Abbreviation store := (gmap nat (list Z)) (only parsing).

(** What a caller may pass as [buffer]. *)
Inductive bufferArg : Type :=
| ArrayBuffer (a : addr)
| NotArrayBuffer.

Record ScanOptions : Type := {
  bytesPerPixel : option Z;
  pixelOrder : option string;
  blackThreshold : option Z;
  minCoverageRatio : option Q;
  sampleStep : option Z
}.

Record Bounds : Type := { left : Z; right : Z }.

Record Cropped : Type := { buffer : addr; width : Z; height : Z }.

(** [new Uint8Array(length)] on an engine that always has the memory:
    zero-filled, and a RangeError on a negative length.  A real engine also
    answers with a RangeError above its length limit and when the memory is
    not there; [cropHorizontalBufferWith] takes the allocation as a
    parameter, for what holds whatever the engine. *)
Definition newUint8Array (len : Z) : outcome (list Z) :=
  if len <? 0 then Throw RangeError else Return (replicate (Z.to_nat len) 0).

(** Relative index of [subarray]: negative counts from the end, and the
    result is clamped to the array. *)
Definition clampIndex (len rel : Z) : Z :=
  if rel <? 0 then Z.max (len + rel) 0 else Z.min rel len.

(** [src.subarray(b, e)], read as a list of bytes. *)
Definition subarray (src : list Z) (b e : Z) : list Z :=
  let len := Z.of_nat (length src) in
  let bi := clampIndex len b in
  let ei := clampIndex len e in
  take (Z.to_nat (Z.max (ei - bi) 0)) (drop (Z.to_nat bi) src).

(** [target.set(source, offset)]: a RangeError when the source does not fit. *)
Definition typedArraySet (target source : list Z) (offset : Z) : outcome (list Z) :=
  if (offset <? 0) || (Z.of_nat (length source) + offset >? Z.of_nat (length target))
  then Throw RangeError
  else Return (take (Z.to_nat offset) target ++ source ++
               drop (Z.to_nat offset + length source) target).

(** [view[idx]]: [undefined] outside the array. *)
Definition viewAt (view : list Z) (idx : Z) : option Z :=
  if idx <? 0 then None else view !! Z.to_nat idx.

(** [(54 * r + 183 * g + 19 * b) >> 8].  With an [undefined] channel the sum
    is NaN and [NaN >> 8] is 0; array elements are bytes, so the 32-bit
    conversion of [>>] changes nothing otherwise. *)
Definition luminance (r g b : option Z) : Z :=
  match r, g, b with
  | Some r, Some g, Some b => Z.shiftr (54 * r + 183 * g + 19 * b) 8
  | _, _, _ => 0
  end.

Definition isBlackAtIndex (view : list Z) (pixelOrder : string)
    (blackThreshold : Z) (idx : Z) : bool :=
  let '(r, g, b, a) :=
    if String.eqb pixelOrder "BGRA"
    then (viewAt view (idx + 2), viewAt view (idx + 1), viewAt view idx,
          viewAt view (idx + 3))
    else (viewAt view idx, viewAt view (idx + 1), viewAt view (idx + 2),
          viewAt view (idx + 3)) in
  let luminance := luminance r g b in
  match a with
  | Some a => (a >=? 16) && (luminance <=? blackThreshold)
  | None => false
  end.

(** [Math.max(1, Math.floor(height * Math.max(0, Math.min(1, ratio))))],
    with the product taken exactly; the double product of the code can round
    up to the next integer, and stays between 1 and [height] all the same. *)
Definition computeMinHits (height : Z) (minCoverageRatio : Q) : Z :=
  Z.max 1 (Qfloor (inject_Z height * Qmax 0 (Qmin 1 minCoverageRatio))).

Section Scan.
Variables (view : list Z) (width height bytesPerPixel : Z).
Variables (pixelOrder : string) (blackThreshold minHits sampleStep : Z).

(** The inner loop [for (let y = 0; y < height; y += sampleStep)], entered
    at row [y] with [hits] so far; it returns the final [hits].  The source
    has it twice, for the left and for the right scan. *)
Fixpoint scanColumn (fuel : nat) (x y hits : Z) : outcome Z :=
  match fuel with
  | O => OutOfFuel
  | S fuel' =>
      if y <? height then
        let idx := (y * width + x) * bytesPerPixel in
        if isBlackAtIndex view pixelOrder blackThreshold idx then
          let hits := hits + 1 in
          if hits >=? minHits then Return hits
          else scanColumn fuel' x (y + sampleStep) hits
        else scanColumn fuel' x (y + sampleStep) hits
      else Return hits
  end.

(** [for (; left < width; left++)]: returns the final [left]. *)
Fixpoint scanLeft (fuel : nat) (left : Z) : outcome Z :=
  match fuel with
  | O => OutOfFuel
  | S fuel' =>
      if left <? width then
        hits ← scanColumn fuel' left 0 0;
        if hits >=? minHits then Return left else scanLeft fuel' (left + 1)
      else Return left
  end.

(** [for (; right >= left; right--)]: returns the final [right]. *)
Fixpoint scanRight (fuel : nat) (left right : Z) : outcome Z :=
  match fuel with
  | O => OutOfFuel
  | S fuel' =>
      if right >=? left then
        hits ← scanColumn fuel' right 0 0;
        if hits >=? minHits then Return right else scanRight fuel' left (right - 1)
      else Return right
  end.
End Scan.

Definition computeHorizontalBounds (fuel : nat) (σ : store) (buffer : bufferArg)
    (width height : Z) (options : ScanOptions) : outcome Bounds :=
  let bytesPerPixel := default 4 (bytesPerPixel options) in
  let pixelOrder := default "RGBA"%string (pixelOrder options) in
  let blackThreshold := default 64 (blackThreshold options) in
  let minCoverageRatio := default (2 # 100)%Q (minCoverageRatio options) in
  let sampleStep := default 1 (sampleStep options) in
  match buffer with
  | NotArrayBuffer => Throw (TypeError (js "buffer must be an ArrayBuffer"))
  | ArrayBuffer a =>
      if negb (bytesPerPixel =? 4)
      then Throw (Error (js "Only 4 bytes-per-pixel buffers (RGBA/BGRA) are supported"))
      else if (width <=? 0) || (height <=? 0)
      then Return {| left := 0; right := 0 |}
      else
        let view := default [] (σ !! a) in
        let minHits := computeMinHits height minCoverageRatio in
        left ← scanLeft view width height bytesPerPixel pixelOrder blackThreshold
                 minHits sampleStep fuel 0;
        right ← scanRight view width height bytesPerPixel pixelOrder blackThreshold
                 minHits sampleStep fuel left (width - 1);
        if (left >=? width) || (right <? 0) || (right <? left)
        then Return {| left := 0; right := width - 1 |}
        else Return {| left := left; right := right |}
  end.

(** The row loop of [cropHorizontalBuffer]: [n] rows remain, [y] is next. *)
Fixpoint cropRows (src : list Z) (width left cropWidth bytesPerPixel : Z)
    (n : nat) (y : Z) (out : list Z) : outcome (list Z) :=
  match n with
  | O => Return out
  | S n' =>
      let srcRowStart := (y * width + left) * bytesPerPixel in
      let dstRowStart := y * cropWidth * bytesPerPixel in
      out' ← typedArraySet out
               (subarray src srcRowStart (srcRowStart + cropWidth * bytesPerPixel))
               dstRowStart;
      cropRows src width left cropWidth bytesPerPixel n' (y + 1) out'
  end.

(** The buffer behind a new typed array gets an address no ArrayBuffer of the
    store has. *)
Definition alloc (σ : store) (bytes : list Z) : addr * store :=
  let a := fresh (dom σ) in (a, <[a := bytes]> σ).

(** [cropHorizontalBuffer], with [new Uint8Array] as the engine has it.
    [out] is private to the call until it is returned, so its bytes enter the
    store when the result is built. *)
Definition cropHorizontalBufferWith (allocate : Z -> outcome (list Z))
    (σ : store) (buffer : addr)
    (width height left right : Z) (bytesPerPixel : option Z)
    : outcome (Cropped * store) :=
  let bytesPerPixel := default 4 bytesPerPixel in
  let src := default [] (σ !! buffer) in
  let cropWidth := Z.max 0 (right - left + 1) in
  out ← allocate (cropWidth * height * bytesPerPixel);
  if (cropWidth =? 0) || (width =? 0) || (height =? 0)
  then
    let '(a, σ') := alloc σ out in
    Return ({| buffer := a; width := cropWidth; height := height |}, σ')
  else
    out ← cropRows src width left cropWidth bytesPerPixel (Z.to_nat height) 0 out;
    let '(a, σ') := alloc σ out in
    Return ({| buffer := a; width := cropWidth; height := height |}, σ').

Definition cropHorizontalBuffer : store -> addr -> Z -> Z -> Z -> Z -> option Z ->
    outcome (Cropped * store) :=
  cropHorizontalBufferWith newUint8Array.

End TrimCore.

(** ** Specification-level notions for the trim core *)

Module TrimSpec.
Import Js.

(** The rows visited at stride [step]: 0, step, 2 step, ... below [height]. *)
Definition sampledRows (height step : Z) : list Z :=
  (fun k => Z.of_nat k * step) <$> seq 0 (Z.to_nat ((height + step - 1) / step)).

(** Number of inked pixels among the sampled rows of column [x]. *)
Definition inkedCount (view : list Z) (width height : Z) (pixelOrder : string)
    (blackThreshold step x : Z) : Z :=
  Z.of_nat (length (filter
    (fun y => TrimCore.isBlackAtIndex view pixelOrder blackThreshold
                ((y * width + x) * 4) = true)
    (sampledRows height step))).

(** A column is inked when that count reaches [minHits]. *)
Definition columnInked (view : list Z) (width height : Z) (pixelOrder : string)
    (blackThreshold minHits step x : Z) : Prop :=
  minHits <= inkedCount view width height pixelOrder blackThreshold step x.

(** Bytes [from, from + n) of a buffer. *)
Definition byteSpan (bytes : list Z) (from n : Z) : list Z :=
  take (Z.to_nat n) (drop (Z.to_nat from) bytes).

(** The scan parameters in force: the option when given, else its default. *)
Definition optPixelOrder (o : TrimCore.ScanOptions) : string :=
  default "RGBA"%string (TrimCore.pixelOrder o).

Definition optThreshold (o : TrimCore.ScanOptions) : Z :=
  default 64 (TrimCore.blackThreshold o).

Definition optMinHits (height : Z) (o : TrimCore.ScanOptions) : Z :=
  TrimCore.computeMinHits height (default (2 # 100)%Q (TrimCore.minCoverageRatio o)).

Definition optStep (o : TrimCore.ScanOptions) : Z :=
  default 1 (TrimCore.sampleStep o).

Definition inkedColumn (view : list Z) (width height : Z)
    (o : TrimCore.ScanOptions) (x : Z) : Prop :=
  columnInked view width height (optPixelOrder o) (optThreshold o)
    (optMinHits height o) (optStep o) x.

(** The call returns [b], given enough fuel. *)
Definition boundsReturned (σ : TrimCore.store) (buffer : TrimCore.bufferArg)
    (width height : Z) (o : TrimCore.ScanOptions) (b : TrimCore.Bounds) : Prop :=
  exists fuel, TrimCore.computeHorizontalBounds fuel σ buffer width height o = Return b.

(** A 1 x 1 white, opaque RGBA image at address 0, and a scan with stride 0. *)
Definition whiteDot : TrimCore.store := {[ 0%nat := [255; 255; 255; 255] ]}.


(** A 3 x 2 opaque RGBA image at address 0 whose middle column is black. *)
Definition bandImage : TrimCore.store :=
  {[ 0%nat := [255; 255; 255; 255;  0; 0; 0; 255;  255; 255; 255; 255;
               255; 255; 255; 255;  0; 0; 0; 255;  255; 255; 255; 255] ]}.

Definition defaultScan : TrimCore.ScanOptions :=
  {| TrimCore.bytesPerPixel := None; TrimCore.pixelOrder := None;
     TrimCore.blackThreshold := None; TrimCore.minCoverageRatio := None;
     TrimCore.sampleStep := None |}.

End TrimSpec.

(** ** Specification-level notions for the patterns, the escaping and the bars *)

Module RenderSpec.
Import Js PrimFloat.

(** A code of the pattern table: 0 to 106. *)
Definition inTable (c : Z) : Prop := 0 <= c <= 106.

(** The module widths of one code, read off its pattern. *)
Definition patternDigits (code : Z) : list Z :=
  match Code128.patternAt code with
  | Some pattern => Code128.digitValue <$> list_ascii_of_string pattern
  | None => []
  end.

(** The patterns of a code sequence, one after the other. *)
Definition expandCodes (codes : list Z) : list Z := mjoin (patternDigits <$> codes).

(** What a single pass over the characters would put for [c]. *)
Definition escapeChar (c : Z) : list Z :=
  if c =? 38 then js "&amp;"
  else if c =? 60 then js "&lt;"
  else if c =? 62 then js "&gt;"
  else if c =? 34 then js "&quot;"
  else if c =? 39 then js "&apos;"
  else [c].

(** One of the five characters XML reserves. *)
Definition xmlSpecial (c : Z) : Prop :=
  c = 38 \/ c = 60 \/ c = 62 \/ c = 34 \/ c = 39.

(** Where bar number [i] belongs: the modules at even positions are bars, and
    bar [i] starts after all the modules before position [2 i], their widths
    added to the start offset one by one, in double arithmetic. *)
Definition barX (modules : list Z) (moduleWidth x0 : PrimFloat.float) (i : nat)
    : PrimFloat.float :=
  foldl (fun x w => PrimFloat.add x (PrimFloat.mul (numberOfZ w) moduleWidth))
    x0 (take (2 * i) modules).

Definition barWidth (modules : list Z) (moduleWidth : PrimFloat.float) (i : nat)
    : PrimFloat.float :=
  PrimFloat.mul (numberOfZ (default 0 (modules !! (2 * i)%nat))) moduleWidth.

(** The double [(total + quietZone * 2) * moduleWidth] of the options, for
    [total] modules. *)
Definition widthOf (total : Z) (o : Code128.Code128RenderOptions)
    : PrimFloat.float :=
  PrimFloat.mul
    (PrimFloat.add (numberOfZ total)
       (PrimFloat.mul (default 10%float (Code128.quietZone o)) 2))
    (default 2%float (Code128.moduleWidth o)).

(** Number of bars among [n] modules. *)
Definition barCount (n : nat) : nat := Nat.div2 (S n).

(** The per-code facts of the table, as a check that runs. *)
Definition dataShape (code : Z) : bool :=
  (length (patternDigits code) =? 6)%nat
  && (EncoderSpec.sumZ (patternDigits code) =? 11)
  && forallb (fun m => (1 <=? m) && (m <=? 4)) (patternDigits code).

End RenderSpec.

(** ** The copy of the scanner in the HarmonyOS unit *)

Module Harmony.
Import Js TrimCore.

(** [computeHorizontalBounds] as the HarmonyOS unit has it: the same two
    scans and the same final test as in the trim core, with none of the three
    guards in front of them.  Its [cropHorizontalBuffer] is the trim core's,
    statement for statement. *)
Definition computeHorizontalBounds (fuel : nat) (σ : store) (buffer : addr)
    (width height : Z) (options : ScanOptions) : outcome Bounds :=
  let bytesPerPixel := default 4 (bytesPerPixel options) in
  let pixelOrder := default "RGBA"%string (pixelOrder options) in
  let blackThreshold := default 64 (blackThreshold options) in
  let minCoverageRatio := default (2 # 100)%Q (minCoverageRatio options) in
  let sampleStep := default 1 (sampleStep options) in
  let view := default [] (σ !! buffer) in
  let minHits := computeMinHits height minCoverageRatio in
  left ← scanLeft view width height bytesPerPixel pixelOrder blackThreshold
           minHits sampleStep fuel 0;
  right ← scanRight view width height bytesPerPixel pixelOrder blackThreshold
           minHits sampleStep fuel left (width - 1);
  if (left >=? width) || (right <? 0) || (right <? left)
  then Return {| left := 0; right := width - 1 |}
  else Return {| left := left; right := right |}.

End Harmony.

(** ** Further specification-level notions for the trim core *)

Module ScanSpec.
Import Js.

(** The same scan parameters with another luminance threshold. *)
Definition withThreshold (o : TrimCore.ScanOptions) (t : Z) : TrimCore.ScanOptions :=
  {| TrimCore.bytesPerPixel := TrimCore.bytesPerPixel o;
     TrimCore.pixelOrder := TrimCore.pixelOrder o;
     TrimCore.blackThreshold := Some t;
     TrimCore.minCoverageRatio := TrimCore.minCoverageRatio o;
     TrimCore.sampleStep := TrimCore.sampleStep o |}.



(** What [new Uint8Array(length)] can do on any engine: refuse with a
    RangeError, which it must for a negative length, or return that many
    zero bytes. *)
Definition typedArrayAllocator (allocate : Z -> outcome (list Z)) : Prop :=
  forall len,
    allocate len = Throw Js.RangeError \/
    (0 <= len /\ allocate len = Js.Return (replicate (Z.to_nat len) 0)).


End ScanSpec.

(** ** The PixelMap trimming unit and its self-test *)

Module Trim.
Import Js.

Record ChannelOffsets : Type := {
  redOffset : Z;
  greenOffset : Z;
  blueOffset : Z;
  alphaOffset : Z;
  bytesPerPixel : Z
}.

(** A PixelMap of the platform, as the unit sees it: [getImageInfo] gives its
    size and, maybe, its pixel format; [getPixelBytesNumber] and
    [readPixelsToBuffer] give its bytes; [image.createPixelMap] builds one
    from bytes, a size and a format. *)
Record PixelMap : Type := {
  pixels : list Z;
  imageWidth : Z;
  imageHeight : Z;
  pixelFormat : option Z
}.

(** What a trimming call hands back: the PixelMap it was given, or a new one. *)
Inductive Returned : Type :=
| Original
| Created (pm : PixelMap).

Definition resolve (given : PixelMap) (r : Returned) : PixelMap :=
  match r with
  | Original => given
  | Created pm => pm
  end.

(** [scanCore.ScanType.CODE128_CODE] *)
Definition CODE128_CODE : Z := 104.

(** [bytes[i] = v] on a Uint8Array, for a byte [v]: nothing happens outside
    the array. *)
Definition typedWrite (bytes : list Z) (i v : Z) : list Z :=
  if i <? 0 then bytes else <[Z.to_nat i := v]> bytes.

Section Platform.

(** The platform's values of [image.PixelMapFormat]. *)
Variables (RGBA_8888 BGRA_8888 ARGB_8888 : Z).

Definition getChannelOffsets (pixelFormat : Z) : ChannelOffsets :=
  if pixelFormat =? RGBA_8888 then
    {| redOffset := 0; greenOffset := 1; blueOffset := 2; alphaOffset := 3;
       bytesPerPixel := 4 |}
  else if pixelFormat =? BGRA_8888 then
    {| redOffset := 2; greenOffset := 1; blueOffset := 0; alphaOffset := 3;
       bytesPerPixel := 4 |}
  else if pixelFormat =? ARGB_8888 then
    {| redOffset := 1; greenOffset := 2; blueOffset := 3; alphaOffset := 0;
       bytesPerPixel := 4 |}
  else
    {| redOffset := 0; greenOffset := 1; blueOffset := 2; alphaOffset := 3;
       bytesPerPixel := 4 |}.

(** [(red + green + blue) / 3 <= blackThreshold], the quotient taken in the
    rationals; for an integer threshold the rounding of the double quotient
    cannot change the comparison.  A missing channel makes the mean NaN. *)
Definition isBlackPixel (pixelBytes : list Z) (indexBase : Z)
    (offsets : ChannelOffsets) (blackThreshold : Z) : bool :=
  match TrimCore.viewAt pixelBytes (indexBase + redOffset offsets),
        TrimCore.viewAt pixelBytes (indexBase + greenOffset offsets),
        TrimCore.viewAt pixelBytes (indexBase + blueOffset offsets) with
  | Some red, Some green, Some blue =>
      Qle_bool (inject_Z (red + green + blue) / inject_Z 3) (inject_Z blackThreshold)
  | _, _, _ => false
  end.

Section ScanEffective.
Variables (pixelBytes : list Z) (width height : Z).
Variables (offsets : ChannelOffsets) (blackThreshold : Z).

(** [for (let y = 0; y < height; y++)] with its [break]: [n] rows remain. *)
Fixpoint hasBlackFrom (n : nat) (x y : Z) : bool :=
  match n with
  | O => false
  | S n' =>
      let index := (y * width + x) * bytesPerPixel offsets in
      if isBlackPixel pixelBytes index offsets blackThreshold then true
      else hasBlackFrom n' x (y + 1)
  end.

(** [for (let x = 0; x < width; x++)]: the final [left], -1 when no column
    has a black pixel. *)
Fixpoint findLeft (n : nat) (x : Z) : Z :=
  match n with
  | O => -1
  | S n' =>
      if hasBlackFrom (Z.to_nat height) x 0 then x else findLeft n' (x + 1)
  end.

(** [for (let x = width - 1; x >= 0; x--)]: the final [right]. *)
Fixpoint findRight (n : nat) (x : Z) : Z :=
  match n with
  | O => -1
  | S n' =>
      if hasBlackFrom (Z.to_nat height) x 0 then x else findRight n' (x - 1)
  end.

Definition scanEffectiveHorizontalBounds : option TrimCore.Bounds :=
  let left := findLeft (Z.to_nat width) 0 in
  let right := findRight (Z.to_nat width) (width - 1) in
  if (left <? 0) || (right <? 0) || (right <? left) then None
  else Some {| TrimCore.left := left; TrimCore.right := right |}.

End ScanEffective.

(** The part that [dealWithCodel128] and [trimHorizontalMarginsByBlack] have
    in common, from [readPixelBytes] to [createPixelMap]. *)
Definition trimBody (pixelMap : PixelMap) (blackThreshold : Z) : outcome Returned :=
  let bytes := pixels pixelMap in
  let width := imageWidth pixelMap in
  let height := imageHeight pixelMap in
  let pixelFormat := default RGBA_8888 (pixelFormat pixelMap) in
  let offsets := getChannelOffsets pixelFormat in
  match scanEffectiveHorizontalBounds bytes width height offsets blackThreshold with
  | None => Return Original
  | Some bounds =>
      let newWidth := TrimCore.right bounds - TrimCore.left bounds + 1 in
      if (newWidth <=? 0) || (newWidth =? width) then Return Original
      else
        cropped ← TrimCore.newUint8Array (newWidth * height * bytesPerPixel offsets);
        cropped ← TrimCore.cropRows bytes width (TrimCore.left bounds) newWidth
                    (bytesPerPixel offsets) (Z.to_nat height) 0 cropped;
        Return (Created {| pixels := cropped; imageWidth := newWidth;
                           imageHeight := height; pixelFormat := Some pixelFormat |})
  end.

Definition dealWithCodel128 (pixelMap : PixelMap) (scanType : option Z)
    : outcome Returned :=
  if negb (bool_decide (scanType = Some CODE128_CODE)) then Return Original
  else trimBody pixelMap 48.

Definition trimHorizontalMarginsByBlack (pixelMap : PixelMap)
    (blackThreshold : option Z) : outcome Returned :=
  trimBody pixelMap (default 48 blackThreshold).

(** *** The self-test *)

Section Synthetic.
Variables (totalWidth height leftMargin rightMargin barWidth : Z).

(** [Math.floor(relative / barWidth) % 2 === 0] inside the margins, [false]
    outside; a bar width of 0 makes the quotient infinite or NaN. *)
Definition syntheticBlack (x : Z) : bool :=
  if (x >=? leftMargin) && (x <? totalWidth - rightMargin) then
    let relative := x - leftMargin in
    if barWidth =? 0 then false else Z.rem (relative / barWidth) 2 =? 0
  else false.

Fixpoint fillRow (n : nat) (y x : Z) (bytes : list Z) : list Z :=
  match n with
  | O => bytes
  | S n' =>
      let i := (y * totalWidth + x) * 4 in
      let isBlack := syntheticBlack x in
      let bytes := typedWrite bytes (i + 0) (if isBlack then 0 else 255) in
      let bytes := typedWrite bytes (i + 1) (if isBlack then 0 else 255) in
      let bytes := typedWrite bytes (i + 2) (if isBlack then 0 else 255) in
      let bytes := typedWrite bytes (i + 3) 255 in
      fillRow n' y (x + 1) bytes
  end.

Fixpoint fillRows (n : nat) (y : Z) (bytes : list Z) : list Z :=
  match n with
  | O => bytes
  | S n' => fillRows n' (y + 1) (fillRow (Z.to_nat totalWidth) y 0 bytes)
  end.

Definition createSyntheticBarcodePixelMap : outcome PixelMap :=
  bytes ← TrimCore.newUint8Array (totalWidth * height * 4);
  let bytes := fillRows (Z.to_nat height) 0 bytes in
  Return {| pixels := bytes; imageWidth := totalWidth; imageHeight := height;
            pixelFormat := Some RGBA_8888 |}.

End Synthetic.

Definition selfTestMessage (gotWidth gotHeight expectedWidth height : Z) : jsstring :=
  js "SelfTest failed: got " ++ numberToString gotWidth ++ js "x" ++
  numberToString gotHeight ++ js ", expected " ++ numberToString expectedWidth ++
  js "x" ++ numberToString height.

Definition runSelfTest : outcome unit :=
  let totalWidth := 400 in
  let height := 120 in
  let leftMargin := 40 in
  let rightMargin := 60 in
  let barWidth := 3 in
  pixelMap ← createSyntheticBarcodePixelMap totalWidth height leftMargin
               rightMargin barWidth;
  processed ← dealWithCodel128 pixelMap (Some CODE128_CODE);
  let info := resolve pixelMap processed in
  let expectedWidth := totalWidth - leftMargin - rightMargin in
  if negb (imageWidth info =? expectedWidth) || negb (imageHeight info =? height)
  then Throw (Error (selfTestMessage (imageWidth info) (imageHeight info)
                       expectedWidth height))
  else Return tt.

End Platform.

End Trim.

(** ** Specification-level notions for the trimming unit *)

Module TrimUnitSpec.
Import Js.

(** Column [x] of a [w] x [h] image has a black pixel. *)
Definition columnHasBlack (pixelBytes : list Z) (w h : Z)
    (offsets : Trim.ChannelOffsets) (threshold x : Z) : Prop :=
  exists y, 0 <= y < h /\
    Trim.isBlackPixel pixelBytes ((y * w + x) * Trim.bytesPerPixel offsets)
      offsets threshold = true.

(** The last black column of the synthetic image, counted from the left
    margin, when the bars fill [n] columns at [barWidth] columns each: the
    last column when the last slot is a bar, the end of the slot before when
    it is a space. *)
Definition lastBlackOffset (n barWidth : Z) : Z :=
  let slot := (n - 1) / barWidth in
  if Z.even slot then n - 1 else slot * barWidth - 1.

End TrimUnitSpec.

(** ** Sample data for the trimming unit *)

Module TrimUnitData.
Import Js.

(** The 3 x 2 image with a black middle column, as a PixelMap with no
    declared format. *)
Definition bandMap : Trim.PixelMap :=
  {| Trim.pixels := [255; 255; 255; 255;  0; 0; 0; 255;  255; 255; 255; 255;
                     255; 255; 255; 255;  0; 0; 0; 255;  255; 255; 255; 255];
     Trim.imageWidth := 3; Trim.imageHeight := 2; Trim.pixelFormat := None |}.

End TrimUnitData.

(** ** Specification-level notions for the checksum *)

Module ChecksumSpec.
Import Js.

(** The checksum code of a text: the code before STOP. *)
Definition checksumOf (text : jsstring) : Z :=
  default 0 (Code128.computeCodesForSetB text !! S (length text)).

(** Two data codes never share a pattern, as a check that runs. *)
Definition patternsDistinct : bool :=
  forallb (fun c =>
    forallb (fun d =>
      (c =? d) || negb (bool_decide (RenderSpec.patternDigits c = RenderSpec.patternDigits d)))
      (seqZ 0 106))
    (seqZ 0 106).

(** No product of a code difference and a weight below 103 is a multiple of
    103, as a check that runs. *)
Definition weightsSeparate : bool :=
  forallb (fun a =>
    forallb (fun k => negb ((a * k) mod 103 =? 0)) (seqZ 1 102))
    (seqZ 1 94).

End ChecksumSpec.

Import Js.

(** ** Facts about the encoder *)

Section Encoder.
Import Code128 EncoderSpec.

Lemma pushCodes_map (rest : jsstring) (codes : list Z) :
  pushCodes codes rest = codes ++ ((fun c => c - 32) <$> rest).
Proof.
  revert codes; induction rest as [|c rest IH]; intros codes; simpl.
  - by rewrite app_nil_r.
  - rewrite IH, <- app_assoc. reflexivity.
Qed.

Lemma exactLoop_acc (r : jsstring) (a j : Z) :
  exactLoop a r j = a + exactLoop 0 r j.
Proof.
  revert a j; induction r as [|c r IHr]; intros a j; simpl; [lia|].
  rewrite (IHr (a + _)), (IHr (0 + _)). lia.
Qed.

Lemma weighted_shift (rest : jsstring) (i : Z) :
  sumZ ((fun k => (default 0 (rest !! k) - 32) * (i + Z.of_nat k + 1))
          <$> seq 0 (length rest))
  = exactLoop 0 rest i.
Proof.
  revert i; induction rest as [|c rest IH]; intros i; [reflexivity|].
  cbn [length seq fmap list_fmap sumZ foldr exactLoop].
  rewrite exactLoop_acc, <- IH, <- fmap_S_seq, <- list_fmap_compose.
  unfold sumZ. simpl.
  match goal with
  | |- _ + foldr _ _ ?a = _ + foldr _ _ ?b => replace a with b; [lia|]
  end.
  apply list_fmap_ext. intros _ k _. simpl. f_equal. lia.
Qed.

Lemma exactLoop_weightedSum (text : jsstring) :
  exactLoop START_CODE_B text 0 = 104 + weightedSum text.
Proof.
  rewrite exactLoop_acc. unfold START_CODE_B. f_equal.
  rewrite <- weighted_shift. unfold weightedSum, charCodeAt.
  reflexivity.
Qed.

(** The exact sum never decreases, and grows by at most 94 times the
    weights. *)
Lemma exactLoop_bounds (r : jsstring) :
  forall a j, Forall inSetB r -> 0 <= j ->
    a <= exactLoop a r j /\
    2 * (exactLoop a r j - a)
      <= 94 * Z.of_nat (length r) * (2 * j + Z.of_nat (length r) + 1).
Proof.
  induction r as [|c r IHr]; intros a j Hall Hj; cbn [exactLoop].
  - simpl. lia.
  - inversion Hall as [|? ? Hc Hr]; subst. unfold inSetB in Hc.
    assert (Ht : 0 <= (c - 32) * (j + 1) <= 94 * (j + 1)) by nia.
    destruct (IHr (a + (c - 32) * (j + 1)) (j + 1) Hr ltac:(lia)) as [Hlo Hhi].
    rewrite length_cons, Nat2Z.inj_succ.
    set (n := Z.of_nat (length r)) in *. assert (0 <= n) by lia.
    set (t := (c - 32) * (j + 1)) in *.
    set (E := exactLoop (a + t) r (j + 1)) in *.
    split; [lia|]. nia.
Qed.

Lemma roundDouble_exact (z : Z) : Z.abs z <= 2 ^ 53 -> roundDouble z = z.
Proof.
  intros Hz. unfold roundDouble.
  destruct (Z.abs z <=? 2 ^ 53) eqn:Hle; [reflexivity | lia].
Qed.

Lemma roundDouble_nonneg (z : Z) : 0 <= z -> 0 <= roundDouble z.
Proof.
  intros Hz. unfold roundDouble.
  destruct (Z.abs z <=? 2 ^ 53) eqn:Hle; [exact Hz|].
  apply Z.leb_gt in Hle. change (2 ^ 53) with 9007199254740992 in Hle.
  rewrite Z.sgn_pos by lia. rewrite Z.mul_1_l.
  apply Z.shiftl_nonneg.
  assert (Hq : 0 <= Z.shiftr (Z.abs z) (Z.log2 (Z.abs z) - 52))
    by (apply Z.shiftr_nonneg; lia).
  repeat match goal with |- context [if ?b then _ else _] => destruct b end; lia.
Qed.

(** Whatever the length of the text, the accumulator is never negative. *)
Lemma checksumLoop_nonneg (r : jsstring) :
  forall a j, Forall inSetB r -> 0 <= a -> 0 <= j -> 0 <= checksumLoop a r j.
Proof.
  induction r as [|c r IHr]; intros a j Hall Ha Hj; cbn [checksumLoop]; [lia|].
  inversion Hall as [|? ? Hc Hr]; subst. unfold inSetB in Hc.
  apply IHr; [assumption | | lia].
  apply roundDouble_nonneg.
  pose proof (roundDouble_nonneg ((c - 32) * (j + 1)) ltac:(nia)). lia.
Qed.

(** While the exact sum stays within 2^53 no addition of the loop rounds. *)
Lemma checksumLoop_exact (r : jsstring) :
  forall a j, Forall inSetB r -> 0 <= a -> 0 <= j ->
    exactLoop a r j <= 2 ^ 53 ->
    checksumLoop a r j = exactLoop a r j.
Proof.
  induction r as [|c r IHr]; intros a j Hall Ha Hj Hfit;
    cbn [checksumLoop exactLoop] in *; [reflexivity|].
  inversion Hall as [|? ? Hc Hr]; subst. unfold inSetB in Hc.
  assert (Ht : 0 <= (c - 32) * (j + 1)) by nia.
  destruct (exactLoop_bounds r (a + (c - 32) * (j + 1)) (j + 1) Hr ltac:(lia))
    as [Hlo _].
  rewrite (roundDouble_exact ((c - 32) * (j + 1))) by lia.
  rewrite roundDouble_exact by lia.
  apply IHr; [assumption | lia | lia | exact Hfit].
Qed.

(** A text of up to 13,800,000 characters keeps the sum within 2^53. *)
Lemma checksumLoop_short (text : jsstring) :
  Forall inSetB text -> Z.of_nat (length text) <= 13800000 ->
  checksumLoop START_CODE_B text 0 = 104 + weightedSum text.
Proof.
  intros Hall Hlen. rewrite <- exactLoop_weightedSum.
  apply checksumLoop_exact; [exact Hall | unfold START_CODE_B; lia | lia |].
  destruct (exactLoop_bounds text START_CODE_B 0 Hall ltac:(lia)) as [_ Hhi].
  unfold START_CODE_B in *.
  set (n := Z.of_nat (length text)) in *. assert (0 <= n) by lia.
  assert (n * (n + 1) <= 13800000 * 13800001) by nia.
  change (2 ^ 53) with 9007199254740992. lia.
Qed.

Lemma checksumLoop_app (l k : jsstring) (a j : Z) :
  checksumLoop a (l ++ k) j
  = checksumLoop (checksumLoop a l j) k (j + Z.of_nat (length l)).
Proof.
  revert a j; induction l as [|c l IH]; intros a j.
  - cbn. f_equal. lia.
  - cbn [app checksumLoop length]. rewrite IH. f_equal. lia.
Qed.

Lemma exactLoop_replicate (n : nat) (c : Z) :
  forall a j,
    2 * (exactLoop a (replicate n c) j - a)
    = (c - 32) * Z.of_nat n * (2 * j + Z.of_nat n + 1).
Proof.
  induction n as [|n IH]; intros a j; cbn [replicate exactLoop].
  - simpl. lia.
  - specialize (IH (a + (c - 32) * (j + 1)) (j + 1)).
    rewrite Nat2Z.inj_succ.
    set (E := exactLoop _ _ _) in *. set (m := Z.of_nat n) in *.
    set (v := c - 32) in *. nia.
Qed.

Lemma computeCodes_form (text : jsstring) :
  computeCodesForSetB text
  = (104 :: ((fun c => c - 32) <$> text)
          ++ [Z.rem (checksumLoop START_CODE_B text 0) 103]) ++ [106].
Proof. unfold computeCodesForSetB. rewrite pushCodes_map. reflexivity. Qed.

Lemma checksum_range (text : jsstring) :
  Forall inSetB text ->
  0 <= Z.rem (checksumLoop START_CODE_B text 0) 103 <= 102.
Proof.
  intros Hall.
  pose proof (checksumLoop_nonneg text START_CODE_B 0 Hall
                ltac:(unfold START_CODE_B; lia) ltac:(lia)) as Hnn.
  pose proof (Z.rem_bound_pos (checksumLoop START_CODE_B text 0) 103
                Hnn ltac:(lia)).
  lia.
Qed.

Lemma validCode_table (code : Z) : 0 <= code <= 106 -> validCode code = true.
Proof.
  intros Hc.
  assert (Hall : forallb validCode (seqZ 0 107) = true) by (vm_compute; reflexivity).
  rewrite forallb_forall in Hall. apply Hall.
  apply list_elem_of_In, elem_of_seqZ. lia.
Qed.

Lemma codesToModulesLoop_total (codes modules : list Z) :
  Forall (fun c => 0 <= c <= 106) codes ->
  exists out, codesToModulesLoop codes modules = Return out.
Proof.
  revert modules; induction codes as [|c codes IH]; intros modules Hall; simpl.
  - eauto.
  - inversion Hall as [|? ? Hc Hrest]; subst.
    pose proof (validCode_table c Hc) as Hv. unfold validCode in Hv.
    destruct (patternAt c) as [[|a p]|]; try discriminate.
    apply IH; assumption.
Qed.

Lemma assertLoop_cases (text : jsstring) (i0 : Z) :
  (Forall inSetB text /\ assertLoop text i0 = Return tt) \/
  (exists (k : nat) (c : Z),
      text !! k = Some c /\ (c < 32 \/ 126 < c) /\
      Forall inSetB (take k text) /\
      assertLoop text i0 = Throw (Error (unsupportedMessage (i0 + Z.of_nat k) c))).
Proof.
  revert i0; induction text as [|c text IH]; intros i0; simpl.
  - left. split; [constructor | reflexivity].
  - destruct ((c <? 32) || (c >? 126)) eqn:Hbad.
    + right. exists 0%nat, c. simpl.
      split; [reflexivity|]. split; [lia|]. split; [constructor|].
      do 3 f_equal. lia.
    + destruct (IH (i0 + 1)) as [[Hall Hret] | (k & c' & Hk & Hc' & Hpre & Hthrow)].
      * left. split; [|assumption]. constructor; [unfold inSetB; lia | assumption].
      * right. exists (S k), c'. simpl.
        split; [assumption|]. split; [assumption|].
        split; [constructor; [unfold inSetB; lia | assumption]|].
        rewrite Hthrow. do 3 f_equal. lia.
Qed.

Lemma computeCodes_in_table (text : jsstring) :
  Forall inSetB text -> Forall (fun c => 0 <= c <= 106) (computeCodesForSetB text).
Proof.
  intros Hall. unfold computeCodesForSetB.
  rewrite pushCodes_map.
  repeat rewrite Forall_app. repeat split.
  - repeat constructor; unfold START_CODE_B; lia.
  - rewrite Forall_fmap. eapply Forall_impl; [exact Hall|].
    intros c Hc. unfold inSetB in Hc. simpl. lia.
  - pose proof (checksum_range text Hall). repeat constructor; lia.
  - repeat constructor; unfold STOP_CODE; lia.
Qed.

(** The tail of the long text: its last 3000 characters, entered with the
    exact sum of the 13,917,000 before them, which is still below 2^53. *)
Lemma checksumLoop_long_tail :
  Z.rem (checksumLoop 9006254985640604 (replicate (Z.to_nat 3000) 125) 13917000) 103
  = 79.
Proof. vm_compute. reflexivity. Qed.

(** C1, as stated, fails: on a long text the sum passes 2^53, the additions
    of the code round, and the checksum it appends is no longer the one of
    the formula.  For [}] repeated 13,920,000 times the code appends 79 and
    the formula gives 78. *)
Lemma computeCodesForSetB_long_text :
  Forall inSetB longText /\
  computeCodesForSetB longText
    = [104] ++ ((fun c => c - 32) <$> longText) ++ [79] ++ [106] /\
  specChecksum longText = 78.
Proof.
  assert (Hall : forall n, Forall inSetB (replicate n 125)).
  { intros n. apply Forall_replicate. unfold inSetB. lia. }
  split; [apply Hall|]. split.
  - assert (Hchk : Z.rem (checksumLoop START_CODE_B longText 0) 103 = 79).
    { unfold longText.
      replace (Z.to_nat 13920000)
        with (Z.to_nat 13917000 + Z.to_nat 3000)%nat by lia.
      rewrite replicate_add, checksumLoop_app, length_replicate.
      rewrite Z2Nat.id by lia.
      pose proof (exactLoop_replicate (Z.to_nat 13917000) 125 START_CODE_B 0)
        as Hsum.
      rewrite Z2Nat.id in Hsum by lia. unfold START_CODE_B in *.
      rewrite (checksumLoop_exact (replicate (Z.to_nat 13917000) 125) 104 0);
        [| apply Hall | lia | lia | change (2 ^ 53) with 9007199254740992; lia].
      replace (exactLoop 104 (replicate (Z.to_nat 13917000) 125) 0)
        with 9006254985640604 by lia.
      exact checksumLoop_long_tail. }
    rewrite computeCodes_form, Hchk.
    generalize ((fun c => c - 32) <$> longText). intros codes.
    cbn [app]. rewrite <- app_assoc. reflexivity.
  - unfold specChecksum. rewrite <- exactLoop_weightedSum. unfold longText.
    pose proof (exactLoop_replicate (Z.to_nat 13920000) 125 START_CODE_B 0) as Hsum.
    rewrite Z2Nat.id in Hsum by lia. unfold START_CODE_B in *.
    replace (exactLoop 104 (replicate (Z.to_nat 13920000) 125) 0)
      with 9010138247280104 by lia.
    reflexivity.
Qed.

(** C1, amended.  For a text over the Subset-B alphabet the code sequence is
    START-B (104), then [charCodeAt(i) - 32] for every character in order,
    then a checksum in [0, 102], then STOP (106): it has [n + 3] entries,
    starts with 104 and ends with 106.  For a text of up to 13,800,000
    characters the checksum is
    [(104 + Σ (charCodeAt(i) - 32) × (i + 1)) mod 103]. *)
Theorem computeCodesForSetB_spec (text : jsstring) :
  Forall inSetB text ->
  exists checksum,
    computeCodesForSetB text
      = [104] ++ ((fun c => c - 32) <$> text) ++ [checksum] ++ [106]
    /\ length (computeCodesForSetB text) = (length text + 3)%nat
    /\ head (computeCodesForSetB text) = Some 104
    /\ last (computeCodesForSetB text) = Some 106
    /\ 0 <= checksum <= 102
    /\ (Z.of_nat (length text) <= 13800000 -> checksum = specChecksum text).
Proof.
  intros Hall.
  exists (Z.rem (checksumLoop START_CODE_B text 0) 103).
  assert (Heq : computeCodesForSetB text
          = [104] ++ ((fun c => c - 32) <$> text)
            ++ [Z.rem (checksumLoop START_CODE_B text 0) 103] ++ [106]).
  { rewrite computeCodes_form. cbn [app]. rewrite <- app_assoc. reflexivity. }
  split; [exact Heq|]. rewrite Heq.
  split; [|split; [|split; [|split]]].
  - rewrite !length_app, length_fmap. simpl. lia.
  - reflexivity.
  - rewrite !app_assoc. apply last_snoc.
  - apply checksum_range, Hall.
  - intros Hlen. rewrite (checksumLoop_short text Hall Hlen).
    unfold specChecksum. apply Z.rem_mod_nonneg; [|lia].
    rewrite <- exactLoop_weightedSum.
    destruct (exactLoop_bounds text START_CODE_B 0 Hall ltac:(lia)) as [Hlo _].
    unfold START_CODE_B in *. lia.
Qed.

Lemma computeCodesForSetB_spec_witness :
  exists checksum,
    computeCodesForSetB (js "HELLO-128")
      = [104] ++ ((fun c => c - 32) <$> js "HELLO-128") ++ [checksum] ++ [106]
    /\ length (computeCodesForSetB (js "HELLO-128"))
       = (length (js "HELLO-128") + 3)%nat
    /\ head (computeCodesForSetB (js "HELLO-128")) = Some 104
    /\ last (computeCodesForSetB (js "HELLO-128")) = Some 106
    /\ 0 <= checksum <= 102
    /\ (Z.of_nat (length (js "HELLO-128")) <= 13800000 ->
        checksum = specChecksum (js "HELLO-128")).
Proof.
  apply (computeCodesForSetB_spec (js "HELLO-128")).
  vm_compute. repeat constructor; discriminate.
Defined.


Lemma unsupportedMessage_example :
  unsupportedMessage 2 20013
  = js "Character at index 2 (U+4E2D) not supported by Code 128-B".
Proof. vm_compute. reflexivity. Qed.

Lemma encode_valid_returns (text : jsstring) :
  Forall inSetB text -> exists modules, encodeCode128BToModules text = Return modules.
Proof.
  intros Hall. unfold encodeCode128BToModules, assertCodeSetBCompatible.
  destruct (assertLoop_cases text 0)
    as [[_ Hret] | (k & c & Hk & Hc & _ & _)].
  - rewrite Hret. simpl.
    apply codesToModulesLoop_total, computeCodes_in_table, Hall.
  - exfalso. rewrite Forall_lookup in Hall. specialize (Hall k c Hk).
    unfold inSetB in Hall. lia.
Qed.

End Encoder.

(** ** Facts about the renderer *)

Section RenderFacts.
Import Code128 EncoderSpec.

Lemma sumModules_from (l : list Z) :
  forall a, 0 <= a -> Forall (fun m => 0 <= m) l -> a + sumZ l <= 2 ^ 53 ->
    foldl (fun acc m => roundDouble (acc + m)) a l = a + sumZ l.
Proof.
  induction l as [|m l IH]; intros a Ha Hl Hfit; cbn [foldl].
  - unfold sumZ. simpl. lia.
  - inversion Hl as [|? ? Hm Hl']; subst.
    assert (Hrest : 0 <= sumZ l).
    { clear -Hl'. induction Hl' as [|x l Hx Hl' IHl]; unfold sumZ in *; simpl; lia. }
    unfold sumZ in *. cbn [foldr] in *.
    rewrite roundDouble_exact by lia.
    rewrite IH by (try assumption; lia). lia.
Qed.

(** While it stays within 2^53 the sum of the modules is exact. *)
Lemma sumModules_exact (modules : list Z) :
  Forall (fun m => 0 <= m) modules -> sumZ modules <= 2 ^ 53 ->
  sumModules modules = sumZ modules.
Proof.
  intros Hl Hfit. unfold sumModules. rewrite sumModules_from; [lia | lia | exact Hl | lia].
Qed.

Lemma decimal_chars (z : Z) : Forall numeralChar (decimal z).
Proof.
  unfold decimal.
  assert (Hu : forall d,
             Forall numeralChar (js (DecimalString.NilEmpty.string_of_uint d))).
  { induction d; simpl; constructor; try assumption; unfold numeralChar;
      vm_compute; right; split; discriminate. }
  assert (Hz : forall d,
             Forall numeralChar (js (DecimalString.NilZero.string_of_uint d))).
  { intros d. destruct d; try apply Hu.
    constructor; [right; vm_compute; split; discriminate | constructor]. }
  destruct (Z.to_int z) as [d|d]; simpl.
  - apply Hz.
  - constructor; [left; reflexivity|]. apply Hz.
Qed.

Lemma numeral_plain (v : list Z) : Forall numeralChar v -> Forall plainChar v.
Proof.
  intros Hv. eapply Forall_impl; [exact Hv|].
  intros c [-> | Hc]; unfold plainChar; lia.
Qed.

Lemma literal_plain (v : list Z) :
  forallb (fun c => negb (c =? 32) && negb (c =? 34)) v = true ->
  Forall plainChar v.
Proof.
  intros Hv. apply Forall_forall. intros c Hc.
  rewrite forallb_forall in Hv. apply list_elem_of_In, Hv in Hc.
  unfold plainChar. lia.
Qed.

Lemma formatDigits_plain (digits : list Z) (n : Z) :
  Forall plainChar digits -> Forall plainChar (formatDigits digits n).
Proof.
  intros Hd. unfold formatDigits, zeros.
  assert (Hzeros : forall k, Forall plainChar (replicate k 48)).
  { intros k. apply Forall_replicate. unfold plainChar. lia. }
  assert (Hexp : Forall plainChar
            ((if n - 1 <? 0 then js "-" else js "+") ++ decimal (Z.abs (n - 1)))).
  { apply Forall_app. split.
    - destruct (n - 1 <? 0); apply literal_plain; reflexivity.
    - apply numeral_plain, decimal_chars. }
  repeat match goal with
         | |- context [if ?b then _ else _] => destruct b
         end;
    repeat (apply Forall_app; split);
    try assumption; try apply Hzeros;
    try (apply literal_plain; reflexivity);
    try (apply Forall_take; assumption);
    try (apply Forall_drop; assumption);
    try (apply numeral_plain, decimal_chars).
Qed.

(** A printed number holds no space and no double quote. *)
Lemma doubleToString_plain (x : PrimFloat.float) : Forall plainChar (doubleToString x).
Proof.
  unfold doubleToString.
  destruct (FloatOps.Prim2SF x) as [s| s | | s m e].
  - apply literal_plain. reflexivity.
  - apply Forall_app. split; [destruct s|]; apply literal_plain; reflexivity.
  - apply literal_plain. reflexivity.
  - destruct (shortestDigits m e) as [d n].
    apply Forall_app. split.
    + destruct s; apply literal_plain; reflexivity.
    + apply formatDigits_plain, numeral_plain, decimal_chars.
Qed.

Lemma plain_no_space_no_quote (v : list Z) :
  Forall plainChar v ->
  Forall (fun c => c <> 32) v /\ Forall (fun c => c <> 34) v.
Proof.
  intros Hv. split; (eapply Forall_impl; [exact Hv|]); intros c [H32 H34];
    assumption.
Qed.

Lemma afterFirst_skip (k0 : Z) (key pre s : list Z) :
  Forall (fun c => c <> k0) pre ->
  afterFirst (k0 :: key) (pre ++ s) = afterFirst (k0 :: key) s.
Proof.
  induction 1 as [|c pre Hc Hpre IH]; [reflexivity|].
  cbn [app afterFirst startsWith].
  destruct (k0 =? c) eqn:Heq; [lia|]. exact IH.
Qed.

Lemma upToQuote_app (v rest : list Z) :
  Forall (fun c => c <> 34) v -> upToQuote (v ++ 34 :: rest) = v.
Proof.
  induction 1 as [|c v Hc Hv IH]; [reflexivity|].
  cbn [app upToQuote]. destruct (c =? 34) eqn:Heq; [lia|]. f_equal. exact IH.
Qed.

Lemma replaceAll_Forall (P Q : Z -> Prop) (c : Z) (by_ value : list Z) :
  Forall Q value -> Forall P by_ ->
  (forall u, Q u -> u <> c -> P u) ->
  Forall P (replaceAll c by_ value).
Proof.
  intros Hvalue Hby Hkeep. unfold replaceAll.
  induction Hvalue as [|u value Hu Hvalue IH]; [constructor|].
  cbn [fmap list_fmap mjoin list_join]. apply Forall_app. split; [|exact IH].
  destruct (u =? c) eqn:Heq; [exact Hby|].
  constructor; [apply Hkeep; [exact Hu | lia] | constructor].
Qed.

(** What [escapeXml] returns holds no [<], no [>], no double and no single
    quote. *)
Lemma escapeXml_markupFree (value : list Z) : Forall markupFree (escapeXml value).
Proof.
  unfold escapeXml.
  apply (replaceAll_Forall markupFree (fun c => c <> 60 /\ c <> 62 /\ c <> 34)).
  - apply (replaceAll_Forall _ (fun c => c <> 60 /\ c <> 62)).
    + apply (replaceAll_Forall _ (fun c => c <> 60)).
      * apply (replaceAll_Forall _ (fun _ => True)).
        -- apply Forall_true. trivial.
        -- vm_compute. repeat constructor; discriminate.
        -- intros u _ Hu. exact Hu.
      * vm_compute. repeat constructor; discriminate.
      * intros u Hu Hne. split; assumption.
    + vm_compute. repeat constructor; discriminate.
    + intros u [H1 H2] Hne. repeat split; assumption.
  - vm_compute. repeat constructor; discriminate.
  - intros u (H1 & H2 & H3) Hne. repeat split; assumption.
Qed.

(** C6 fails on the code.  With the bar colour set to a less-than sign and
    the background to a double quote, the markup for the text [A] holds both
    values as they are, inside [fill] attributes; [escapeXml], which the
    renderer applies to the text and to the font family, would have turned
    them into [&lt;] and [&quot;]. *)
Theorem renderCode128BToSvg_fill_not_escaped :
  exists svg,
    renderCode128BToSvg (js "A") rawFills = Return svg /\
    isInfixOf (js " fill=" ++ dq ++ dq ++ dq ++ js "/>") svg = true /\
    isInfixOf (js " fill=" ++ dq ++ js "<" ++ dq ++ js "/>") svg = true /\
    escapeXml dq = js "&quot;" /\
    escapeXml (js "<") = js "&lt;".
Proof.
  eexists. split; [vm_compute; reflexivity|].
  repeat split; vm_compute; reflexivity.
Qed.

End RenderFacts.

(** ** Facts about the bounds scanner *)

Section ScanFacts.
Import TrimCore TrimSpec.

Variables (view : list Z) (width height : Z) (order : string).
Variables (threshold minHits step : Z).
Hypothesis Hstep : 1 <= step.
Hypothesis HminHits : 1 <= minHits.

Let black (x y : Z) : bool :=
  isBlackAtIndex view order threshold ((y * width + x) * 4).

Let column (fuel : nat) (x y hits : Z) : outcome Z :=
  scanColumn view width height 4 order threshold minHits step fuel x y hits.

Let rowsFrom (y : Z) (n : nat) : list Z :=
  (fun k => y + Z.of_nat k * step) <$> seq 0 n.

Let hitsIn (x : Z) (rows : list Z) : Z :=
  Z.of_nat (length (filter (fun y => black x y = true) rows)).

Lemma rowsFrom_S (y : Z) (n : nat) :
  rowsFrom y (S n) = y :: rowsFrom (y + step) n.
Proof.
  unfold rowsFrom. cbn [seq fmap list_fmap]. f_equal; [lia|].
  rewrite <- fmap_S_seq, <- list_fmap_compose.
  apply list_fmap_ext. intros _ k _. simpl. lia.
Qed.

Lemma scanColumn_count (n : nat) :
  forall (fuel : nat) (x y hits : Z),
    (forall k, 0 <= k -> (y + k * step < height <-> k < Z.of_nat n)) ->
    (n < fuel)%nat ->
    hits < minHits ->
    column fuel x y hits = Return (Z.min minHits (hits + hitsIn x (rowsFrom y n))).
Proof.
  induction n as [|n IH]; intros fuel x y hits Hrows Hfuel Hhits;
    (destruct fuel as [|fuel]; [lia|]); unfold column; cbn [scanColumn].
  - pose proof (Hrows 0 ltac:(lia)) as H0.
    destruct (y <? height) eqn:Hy; [lia|].
    unfold hitsIn. simpl. f_equal. lia.
  - pose proof (Hrows 0 ltac:(lia)) as H0.
    destruct (y <? height) eqn:Hy; [|lia].
    assert (Hnext : forall k, 0 <= k ->
              (y + step + k * step < height <-> k < Z.of_nat n)).
    { intros k Hk. specialize (Hrows (k + 1) ltac:(lia)).
      replace (y + (k + 1) * step) with (y + step + k * step) in Hrows by lia.
      lia. }
    rewrite rowsFrom_S. unfold hitsIn. rewrite filter_cons.
    fold (black x y). destruct (black x y) eqn:Hb.
    + rewrite decide_True by reflexivity. cbn [length].
      destruct (hits + 1 >=? minHits) eqn:Hge.
      * f_equal. lia.
      * fold (column fuel x (y + step) (hits + 1)).
        rewrite (IH fuel x (y + step) (hits + 1) Hnext ltac:(lia) ltac:(lia)).
        f_equal. unfold hitsIn. lia.
    + rewrite decide_False by discriminate.
      fold (column fuel x (y + step) hits).
      rewrite (IH fuel x (y + step) hits Hnext ltac:(lia) Hhits).
      reflexivity.
Qed.

Lemma sampledRows_rowsFrom :
  sampledRows height step = rowsFrom 0 (Z.to_nat ((height + step - 1) / step)).
Proof. reflexivity. Qed.

Lemma sampled_rows_bound (k : Z) :
  1 <= height -> 0 <= k ->
  (0 + k * step < height
   <-> k < Z.of_nat (Z.to_nat ((height + step - 1) / step))).
Proof.
  intros Hh Hk.
  pose proof (Z.div_mod (height + step - 1) step ltac:(lia)) as Hdm.
  pose proof (Z.mod_pos_bound (height + step - 1) step ltac:(lia)) as Hmb.
  assert (0 <= (height + step - 1) / step) by (apply Z.div_pos; lia).
  rewrite Z2Nat.id by assumption. nia.
Qed.

Lemma sampled_rows_le_height :
  1 <= height -> (Z.to_nat ((height + step - 1) / step) <= Z.to_nat height)%nat.
Proof.
  intros Hh.
  pose proof (Z.div_mod (height + step - 1) step ltac:(lia)) as Hdm.
  pose proof (Z.mod_pos_bound (height + step - 1) step ltac:(lia)) as Hmb.
  assert (0 <= (height + step - 1) / step) by (apply Z.div_pos; lia).
  apply Z2Nat.inj_le; [assumption | lia | nia].
Qed.

(** The column loop, run from the top with enough fuel, returns the number
    of inked sampled pixels, capped at [minHits]. *)
Lemma scanColumn_top (fuel : nat) (x : Z) :
  1 <= height -> (Z.to_nat height < fuel)%nat ->
  column fuel x 0 0
  = Return (Z.min minHits (inkedCount view width height order threshold step x)).
Proof.
  intros Hh Hfuel.
  rewrite (scanColumn_count (Z.to_nat ((height + step - 1) / step)) fuel x 0 0).
  - unfold inkedCount. rewrite sampledRows_rowsFrom. reflexivity.
  - intros k Hk. apply sampled_rows_bound; assumption.
  - pose proof (sampled_rows_le_height Hh). lia.
  - lia.
Qed.

Let inked (x : Z) : Prop :=
  columnInked view width height order threshold minHits step x.

Let scanL (fuel : nat) (l : Z) : outcome Z :=
  scanLeft view width height 4 order threshold minHits step fuel l.

Let scanR (fuel : nat) (l r : Z) : outcome Z :=
  scanRight view width height 4 order threshold minHits step fuel l r.

Lemma column_test (fuel : nat) (x : Z) :
  1 <= height -> (Z.to_nat height < fuel)%nat ->
  exists hits, column fuel x 0 0 = Return hits /\
               ((hits >=? minHits) = true <-> inked x).
Proof.
  intros Hh Hfuel. eexists. split; [apply scanColumn_top; assumption|].
  unfold inked, columnInked. lia.
Qed.

(** The left scan stops at the first inked column, or at [width]. *)
Lemma scanLeft_first (m : nat) :
  forall (fuel : nat) (l : Z),
    1 <= height -> l <= width -> width - l <= Z.of_nat m ->
    (m + Z.to_nat height + 1 < fuel)%nat ->
    exists l', scanL fuel l = Return l' /\ l <= l' <= width /\
               (forall x, l <= x < l' -> ~ inked x) /\
               (l' < width -> inked l').
Proof.
  induction m as [|m IH]; intros fuel l Hh Hl Hm Hfuel;
    (destruct fuel as [|fuel]; [lia|]); unfold scanL; cbn [scanLeft].
  - destruct (l <? width) eqn:Hlt; [lia|].
    exists l. split; [reflexivity|]. split; [lia|]. split; intros; lia.
  - destruct (l <? width) eqn:Hlt.
    + destruct (column_test fuel l Hh ltac:(lia)) as (hits & Hcol & Htest).
      unfold column in Hcol. rewrite Hcol. cbn.
      destruct (hits >=? minHits) eqn:Hge.
      * exists l. split; [reflexivity|]. split; [lia|]. split.
        -- intros x Hx; lia.
        -- intros _. apply Htest. reflexivity.
      * destruct (IH fuel (l + 1) Hh ltac:(lia) ltac:(lia) ltac:(lia))
          as (l' & Hret & Hrange & Hbefore & Hat).
        unfold scanL in Hret. exists l'.
        split; [assumption|]. split; [lia|]. split; [|assumption].
        intros x Hx. destruct (decide (x = l)) as [->|Hne].
        -- intros Hin. apply Htest in Hin. congruence.
        -- apply Hbefore. lia.
    + exists l. split; [reflexivity|]. split; [lia|]. split; intros; lia.
Qed.

(** The right scan stops at the last inked column not left of [l], or at
    [l - 1]. *)
Lemma scanRight_last (m : nat) :
  forall (fuel : nat) (l r : Z),
    1 <= height -> l - 1 <= r -> r - l + 1 <= Z.of_nat m ->
    (m + Z.to_nat height + 1 < fuel)%nat ->
    exists r', scanR fuel l r = Return r' /\ l - 1 <= r' <= r /\
               (forall x, r' < x <= r -> ~ inked x) /\
               (l <= r' -> inked r').
Proof.
  induction m as [|m IH]; intros fuel l r Hh Hr Hm Hfuel;
    (destruct fuel as [|fuel]; [lia|]); unfold scanR; cbn [scanRight].
  - destruct (r >=? l) eqn:Hge; [lia|].
    exists r. split; [reflexivity|]. split; [lia|]. split; intros; lia.
  - destruct (r >=? l) eqn:Hge.
    + destruct (column_test fuel r Hh ltac:(lia)) as (hits & Hcol & Htest).
      unfold column in Hcol. rewrite Hcol. cbn.
      destruct (hits >=? minHits) eqn:Hhit.
      * exists r. split; [reflexivity|]. split; [lia|]. split.
        -- intros x Hx; lia.
        -- intros _. apply Htest. reflexivity.
      * destruct (IH fuel l (r - 1) Hh ltac:(lia) ltac:(lia) ltac:(lia))
          as (r' & Hret & Hrange & Hafter & Hat).
        unfold scanR in Hret. exists r'.
        split; [assumption|]. split; [lia|]. split; [|assumption].
        intros x Hx. destruct (decide (x = r)) as [->|Hne].
        -- intros Hin. apply Htest in Hin. congruence.
        -- apply Hafter. lia.
    + exists r. split; [reflexivity|]. split; [lia|]. split; intros; lia.
Qed.

End ScanFacts.

Section FuelFacts.
Import TrimCore.

Variables (view : list Z) (width height bpp : Z) (order : string).
Variables (threshold minHits step : Z).

Lemma scanColumn_fuel_mono (fuel fuel' : nat) :
  forall (x y hits v : Z),
    (fuel <= fuel')%nat ->
    scanColumn view width height bpp order threshold minHits step fuel x y hits
      = Return v ->
    scanColumn view width height bpp order threshold minHits step fuel' x y hits
      = Return v.
Proof.
  revert fuel'. induction fuel as [|fuel IH]; intros fuel' x y hits v Hle Hrun;
    [discriminate|].
  destruct fuel' as [|fuel']; [lia|]. cbn [scanColumn] in *.
  destruct (y <? height); [|assumption].
  destruct (isBlackAtIndex view order threshold ((y * width + x) * bpp)).
  - destruct (hits + 1 >=? minHits); [assumption|]. apply IH; [lia | assumption].
  - apply IH; [lia | assumption].
Qed.

Lemma scanLeft_fuel_mono (fuel fuel' : nat) :
  forall (l v : Z),
    (fuel <= fuel')%nat ->
    scanLeft view width height bpp order threshold minHits step fuel l = Return v ->
    scanLeft view width height bpp order threshold minHits step fuel' l = Return v.
Proof.
  revert fuel'. induction fuel as [|fuel IH]; intros fuel' l v Hle Hrun;
    [discriminate|].
  destruct fuel' as [|fuel']; [lia|]. cbn [scanLeft] in *.
  destruct (l <? width); [|assumption].
  destruct (scanColumn view width height bpp order threshold minHits step fuel l 0 0)
    as [hits| |] eqn:Hcol; try discriminate.
  rewrite (scanColumn_fuel_mono fuel fuel' l 0 0 hits ltac:(lia) Hcol).
  cbn [mbind outcome_bind] in *.
  destruct (hits >=? minHits); [assumption|]. apply IH; [lia | assumption].
Qed.

Lemma scanRight_fuel_mono (fuel fuel' : nat) :
  forall (l r v : Z),
    (fuel <= fuel')%nat ->
    scanRight view width height bpp order threshold minHits step fuel l r = Return v ->
    scanRight view width height bpp order threshold minHits step fuel' l r = Return v.
Proof.
  revert fuel'. induction fuel as [|fuel IH]; intros fuel' l r v Hle Hrun;
    [discriminate|].
  destruct fuel' as [|fuel']; [lia|]. cbn [scanRight] in *.
  destruct (r >=? l); [|assumption].
  destruct (scanColumn view width height bpp order threshold minHits step fuel r 0 0)
    as [hits| |] eqn:Hcol; try discriminate.
  rewrite (scanColumn_fuel_mono fuel fuel' r 0 0 hits ltac:(lia) Hcol).
  cbn [mbind outcome_bind] in *.
  destruct (hits >=? minHits); [assumption|]. apply IH; [lia | assumption].
Qed.


End FuelFacts.

Section BoundsFacts.
Import TrimCore TrimSpec.

Lemma computeMinHits_pos (h : Z) (r : Q) : 1 <= computeMinHits h r.
Proof. unfold computeMinHits. lia. Qed.

Lemma computeMinHits_le_height (h : Z) (r : Q) : 1 <= h -> computeMinHits h r <= h.
Proof.
  intros Hh. unfold computeMinHits. apply Z.max_lub; [assumption|].
  rewrite <- (Qfloor_Z h) at 2. apply Qfloor_resp_le.
  assert (Hc0 : (0 <= Qmax 0 (Qmin 1 r))%Q) by apply Q.le_max_l.
  assert (Hc1 : (Qmax 0 (Qmin 1 r) <= 1)%Q).
  { apply Q.max_lub; [discriminate | apply Q.le_min_l]. }
  assert (Hh0 : (0 <= inject_Z h)%Q).
  { change 0%Q with (inject_Z 0). rewrite <- Zle_Qle. lia. }
  rewrite <- (Qmult_1_r (inject_Z h)) at 2.
  rewrite (Qmult_comm (inject_Z h) (Qmax 0 (Qmin 1 r))), (Qmult_comm (inject_Z h) 1).
  apply Qmult_le_compat_r; assumption.
Qed.

(** What the two scans and the final test compute, for a non-empty image and
    a positive stride: the first and the last inked column, or the full width
    when no column is inked. *)
Lemma computeHorizontalBounds_scan (σ : store) (a : addr) (w h : Z)
    (o : ScanOptions) (fuel : nat) :
  default 4 (bytesPerPixel o) = 4 ->
  1 <= w -> 1 <= h -> 1 <= optStep o ->
  (Z.to_nat w + Z.to_nat h + 1 < fuel)%nat ->
  exists b,
    computeHorizontalBounds fuel σ (ArrayBuffer a) w h o = Return b /\
    0 <= left b <= right b /\ right b <= w - 1 /\
    ((forall x, 0 <= x < w -> ~ inkedColumn (default [] (σ !! a)) w h o x) ->
     b = {| left := 0; right := w - 1 |}) /\
    ((exists x, 0 <= x < w /\ inkedColumn (default [] (σ !! a)) w h o x) ->
     inkedColumn (default [] (σ !! a)) w h o (left b) /\
     inkedColumn (default [] (σ !! a)) w h o (right b) /\
     forall x, 0 <= x < w -> inkedColumn (default [] (σ !! a)) w h o x ->
               left b <= x <= right b).
Proof.
  intros Hbpp Hw Hh Hstep Hfuel.
  unfold computeHorizontalBounds. rewrite Hbpp.
  change (negb (4 =? 4)) with false. cbv iota.
  destruct ((w <=? 0) || (h <=? 0)) eqn:Hguard; [lia|].
  set (view := default [] (σ !! a)).
  pose proof (computeMinHits_pos h (default (2 # 100)%Q (minCoverageRatio o))) as Hmin.
  destruct (scanLeft_first view w h (optPixelOrder o) (optThreshold o)
              (optMinHits h o) (optStep o) Hstep Hmin (Z.to_nat w) fuel 0
              Hh ltac:(lia) ltac:(lia) ltac:(lia))
    as (l & Hl & Hlrange & Hbefore & Hat).
  unfold optPixelOrder, optThreshold, optMinHits, optStep in Hl.
  rewrite Hl. cbn [mbind outcome_bind].
  destruct (scanRight_last view w h (optPixelOrder o) (optThreshold o)
              (optMinHits h o) (optStep o) Hstep Hmin (Z.to_nat w) fuel l (w - 1)
              Hh ltac:(lia) ltac:(lia) ltac:(lia))
    as (r & Hr & Hrrange & Hafter & Hatr).
  unfold optPixelOrder, optThreshold, optMinHits, optStep in Hr.
  rewrite Hr. cbn [mbind outcome_bind].
  fold (inkedColumn view w h o) in *.
  destruct (decide (l < w)) as [Hlt | Hnlt].
  - assert (Hinl : inkedColumn view w h o l) by (apply Hat; assumption).
    assert (Hlr : l <= r).
    { destruct (decide (l <= r)) as [?|Hn]; [assumption|].
      exfalso. apply (Hafter l); [lia | assumption]. }
    destruct ((l >=? w) || (r <? 0) || (r <? l)) eqn:Hcond; [lia|].
    eexists. split; [reflexivity|]. cbn [left right].
    split; [lia|]. split; [lia|]. split.
    + intros Hnone. exfalso. apply (Hnone l); [lia | assumption].
    + intros _. split; [assumption|]. split; [apply Hatr; assumption|].
      intros x Hx Hinx. split.
      * destruct (decide (l <= x)) as [?|Hn]; [assumption|].
        exfalso. apply (Hbefore x); [lia | assumption].
      * destruct (decide (x <= r)) as [?|Hn]; [assumption|].
        exfalso. apply (Hafter x); [lia | assumption].
  - destruct ((l >=? w) || (r <? 0) || (r <? l)) eqn:Hcond; [|lia].
    eexists. split; [reflexivity|]. cbn [left right].
    split; [lia|]. split; [lia|]. split; [reflexivity|].
    intros (x & Hx & Hinx). exfalso. apply (Hbefore x); [lia | assumption].
Qed.

Lemma computeHorizontalBounds_fuel_mono (fuel fuel' : nat) (σ : store)
    (buf : bufferArg) (w h : Z) (o : ScanOptions) (b : Bounds) :
  (fuel <= fuel')%nat ->
  computeHorizontalBounds fuel σ buf w h o = Return b ->
  computeHorizontalBounds fuel' σ buf w h o = Return b.
Proof.
  intros Hle. unfold computeHorizontalBounds.
  destruct buf as [a|]; [|discriminate].
  destruct (negb (default 4 (bytesPerPixel o) =? 4)); [discriminate|].
  destruct ((w <=? 0) || (h <=? 0)); [trivial|].
  destruct (scanLeft _ _ _ _ _ _ _ _ fuel 0) as [l| |] eqn:Hl; try discriminate.
  rewrite (scanLeft_fuel_mono _ _ _ _ _ _ _ _ fuel fuel' 0 l Hle Hl).
  cbn [mbind outcome_bind].
  destruct (scanRight _ _ _ _ _ _ _ _ fuel l (w - 1)) as [r| |] eqn:Hr;
    try discriminate.
  rewrite (scanRight_fuel_mono _ _ _ _ _ _ _ _ fuel fuel' l (w - 1) r Hle Hr).
  trivial.
Qed.

(** A call has at most one result, whatever the fuel. *)
Lemma boundsReturned_unique (σ : store) (buf : bufferArg) (w h : Z)
    (o : ScanOptions) (b b' : Bounds) :
  boundsReturned σ buf w h o b -> boundsReturned σ buf w h o b' -> b = b'.
Proof.
  intros [f Hf] [f' Hf'].
  apply (computeHorizontalBounds_fuel_mono f (f + f')) in Hf; [|lia].
  apply (computeHorizontalBounds_fuel_mono f' (f + f')) in Hf'; [|lia].
  congruence.
Qed.






Lemma filter_keep_all {A : Type} (P : A -> Prop) `{forall x, Decision (P x)}
    (l : list A) :
  Forall P l -> filter P l = l.
Proof.
  induction 1 as [|x l Hx Hl IH]; [reflexivity|].
  rewrite filter_cons, decide_True by assumption. f_equal. exact IH.
Qed.

Lemma filter_drop_all {A : Type} (P : A -> Prop) `{forall x, Decision (P x)}
    (l : list A) :
  Forall (fun x => ~ P x) l -> filter P l = [].
Proof.
  induction 1 as [|x l Hx Hl IH]; [reflexivity|].
  rewrite filter_cons, decide_False by assumption. exact IH.
Qed.

Lemma sampledRows_stride_1 (h : Z) :
  0 <= h -> Forall (fun y => 0 <= y < h) (sampledRows h 1)
            /\ Z.of_nat (length (sampledRows h 1)) = h.
Proof.
  intros Hh. unfold sampledRows.
  replace ((h + 1 - 1) / 1) with h by (rewrite Z.div_1_r; lia).
  split.
  - rewrite Forall_fmap, Forall_seq. intros j Hj. simpl. lia.
  - rewrite length_fmap, length_seq. lia.
Qed.

Lemma inkedCount_full (view : list Z) (w h : Z) (order : string) (thr x : Z) :
  0 <= h ->
  (forall y, 0 <= y < h -> isBlackAtIndex view order thr ((y * w + x) * 4) = true) ->
  inkedCount view w h order thr 1 x = h.
Proof.
  intros Hh Hall. unfold inkedCount.
  destruct (sampledRows_stride_1 h Hh) as [Hrows Hlen].
  rewrite filter_keep_all; [exact Hlen|].
  eapply Forall_impl; [exact Hrows|]. intros y Hy. simpl. auto.
Qed.

Lemma inkedCount_none (view : list Z) (w h : Z) (order : string) (thr x : Z) :
  0 <= h ->
  (forall y, 0 <= y < h -> isBlackAtIndex view order thr ((y * w + x) * 4) = false) ->
  inkedCount view w h order thr 1 x = 0.
Proof.
  intros Hh Hall. unfold inkedCount.
  destruct (sampledRows_stride_1 h Hh) as [Hrows _].
  rewrite filter_drop_all; [reflexivity|].
  eapply Forall_impl; [exact Hrows|]. intros y Hy. simpl.
  rewrite (Hall y Hy). discriminate.
Qed.

(** C3.  On a [w] x [h] image whose pixels are inked exactly in the columns
    [L..R], over the full height, the scan with the default parameters
    (threshold 64, coverage 0.02, stride 1, RGBA) returns [{left: L, right: R}],
    and nothing else. *)
Theorem computeHorizontalBounds_inked_band (σ : store) (a : addr)
    (w h L R : Z) :
  1 <= w -> 1 <= h -> 0 <= L <= R -> R < w ->
  (forall x y, 0 <= x < w -> 0 <= y < h ->
     isBlackAtIndex (default [] (σ !! a)) "RGBA" 64 ((y * w + x) * 4)
       = (L <=? x) && (x <=? R)) ->
  boundsReturned σ (ArrayBuffer a) w h defaultScan {| left := L; right := R |} /\
  (forall b, boundsReturned σ (ArrayBuffer a) w h defaultScan b ->
     b = {| left := L; right := R |}).
Proof.
  intros Hw Hh HLR HR Hpix.
  set (view := default [] (σ !! a)) in *.
  pose proof (computeMinHits_pos h (2 # 100)%Q) as Hmin1.
  pose proof (computeMinHits_le_height h (2 # 100)%Q Hh) as Hminh.
  assert (Hink : forall x, 0 <= x < w ->
            (inkedColumn view w h defaultScan x <-> L <= x <= R)).
  { intros x Hx. unfold inkedColumn, columnInked, optStep, optMinHits,
      optThreshold, optPixelOrder. cbn [defaultScan default sampleStep
      minCoverageRatio blackThreshold pixelOrder].
    destruct (decide (L <= x <= R)) as [Hin | Hout].
    - rewrite inkedCount_full; [lia | lia |].
      intros y Hy. rewrite Hpix by lia. lia.
    - rewrite inkedCount_none; [lia | lia |].
      intros y Hy. rewrite Hpix by lia. lia. }
  destruct (computeHorizontalBounds_scan σ a w h defaultScan
              (Z.to_nat w + Z.to_nat h + 2) eq_refl Hw Hh ltac:(vm_compute; discriminate)
              ltac:(lia))
    as (b & Hrun & Hlr & Hr & _ & Hsome).
  fold view in Hsome.
  destruct Hsome as (Hl & Hrr & Hin).
  { exists L. split; [lia|]. apply Hink; lia. }
  assert (Hb : b = {| left := L; right := R |}).
  { apply Hink in Hl; [|lia]. apply Hink in Hrr; [|lia].
    pose proof (Hin L ltac:(lia) (proj2 (Hink L ltac:(lia)) ltac:(lia))).
    pose proof (Hin R ltac:(lia) (proj2 (Hink R ltac:(lia)) ltac:(lia))).
    destruct b as [bl br]. cbn [left right] in *. f_equal; lia. }
  subst b.
  assert (Hret : boundsReturned σ (ArrayBuffer a) w h defaultScan
                   {| left := L; right := R |}) by (eexists; exact Hrun).
  split; [exact Hret|].
  intros b' Hret'. exact (boundsReturned_unique _ _ _ _ _ _ _ Hret' Hret).
Qed.

Lemma computeHorizontalBounds_inked_band_witness :
  boundsReturned bandImage (ArrayBuffer 0) 3 2 defaultScan {| left := 1; right := 1 |} /\
  (forall b, boundsReturned bandImage (ArrayBuffer 0) 3 2 defaultScan b ->
     b = {| left := 1; right := 1 |}).
Proof.
  apply (computeHorizontalBounds_inked_band bandImage 0%nat 3 2 1 1).
  - lia.
  - lia.
  - lia.
  - lia.
  - intros x y Hx Hy.
    assert (Hxs : x = 0 \/ x = 1 \/ x = 2) by lia.
    assert (Hys : y = 0 \/ y = 1) by lia.
    destruct Hxs as [-> | [-> | ->]]; destruct Hys as [-> | ->]; reflexivity.
Defined.




End BoundsFacts.

(** ** Facts about the buffer cropper *)

Section CropFacts.
Import TrimCore TrimSpec ScanSpec.

Lemma subarray_length_le (src : list Z) (b e : Z) :
  b <= e -> Z.of_nat (length (subarray src b e)) <= e - b.
Proof.
  intros Hbe. unfold subarray, clampIndex.
  rewrite length_take, length_drop.
  destruct (b <? 0) eqn:Hb, (e <? 0) eqn:He; lia.
Qed.

Lemma subarray_in_range (src : list Z) (b n : Z) :
  0 <= b -> 0 <= n -> b + n <= Z.of_nat (length src) ->
  subarray src b (b + n) = byteSpan src b n
  /\ Z.of_nat (length (byteSpan src b n)) = n.
Proof.
  intros Hb Hn Hfit. unfold subarray, clampIndex, byteSpan.
  destruct (b <? 0) eqn:Hb0; [lia|]. destruct (b + n <? 0) eqn:He0; [lia|].
  replace (Z.min b (Z.of_nat (length src))) with b by lia.
  replace (Z.min (b + n) (Z.of_nat (length src))) with (b + n) by lia.
  replace (Z.max (b + n - b) 0) with n by lia.
  split; [reflexivity|]. rewrite length_take, length_drop. lia.
Qed.

Lemma typedArraySet_fits (target source : list Z) (offset : Z) :
  0 <= offset ->
  Z.of_nat (length source) + offset <= Z.of_nat (length target) ->
  typedArraySet target source offset
  = Return (take (Z.to_nat offset) target ++ source ++
            drop (Z.to_nat offset + length source) target)
  /\ length (take (Z.to_nat offset) target ++ source ++
             drop (Z.to_nat offset + length source) target) = length target.
Proof.
  intros Hoff Hfit. unfold typedArraySet.
  destruct ((offset <? 0) ||
            (Z.of_nat (length source) + offset >? Z.of_nat (length target)))
    eqn:Hbad; [lia|].
  split; [reflexivity|].
  rewrite !length_app, length_take, length_drop. lia.
Qed.

(** The row loop runs to completion whenever the row length is not negative
    and [out] has room for all the rows. *)
Lemma cropRows_total (src : list Z) (w l cw bpp : Z) (n : nat) :
  forall (y : Z) (out : list Z),
    0 <= y -> 0 <= cw * bpp ->
    Z.of_nat (length out) = (y + Z.of_nat n) * (cw * bpp) ->
    exists out', cropRows src w l cw bpp n y out = Return out'
                 /\ length out' = length out.
Proof.
  induction n as [|n IH]; intros y out Hy Hrl Hlen; cbn [cropRows].
  - eauto.
  - set (s := (y * w + l) * bpp).
    pose proof (subarray_length_le src s (s + cw * bpp) ltac:(lia)) as Hsub.
    destruct (typedArraySet_fits out (subarray src s (s + cw * bpp))
                (y * cw * bpp)) as [Hset Hlen'].
    + nia.
    + nia.
    + rewrite Hset. cbn [mbind outcome_bind].
      match goal with
      | |- exists _, cropRows _ _ _ _ _ _ _ ?o = _ /\ _ => set (out1 := o) in *
      end.
      destruct (IH (y + 1) out1 ltac:(lia) Hrl) as (out' & Hrun & Hl).
      * rewrite Hlen', Hlen. lia.
      * exists out'. split; [exact Hrun | congruence].
Qed.

Lemma splice_before {A : Type} (out sub rest : list A) (d k n : nat) :
  (k + n <= d)%nat -> (d <= length out)%nat ->
  take n (drop k (take d out ++ sub ++ rest)) = take n (drop k out).
Proof.
  intros Hkn Hd.
  rewrite drop_app_le by (rewrite length_take; lia).
  rewrite take_app_le by (rewrite length_drop, length_take; lia).
  rewrite !take_drop_commute, take_take. do 2 f_equal. lia.
Qed.

Lemma splice_at {A : Type} (out sub rest : list A) (d : nat) :
  (d <= length out)%nat ->
  take (length sub) (drop d (take d out ++ sub ++ rest)) = sub.
Proof.
  intros Hd. rewrite drop_app_length' by (rewrite length_take; lia).
  apply take_app_length.
Qed.

Section InRange.
Variables (src : list Z) (w h L cw : Z).
Hypothesis Hsize : Z.of_nat (length src) = w * h * 4.
Hypothesis HL : 0 <= L.
Hypothesis Hcw : 0 <= cw.
Hypothesis Hfit : L + cw <= w.

(** One in-range iteration of the row loop. *)
Lemma cropRows_step (y : Z) (out : list Z) :
  0 <= y < h -> Z.of_nat (length out) = h * (cw * 4) ->
  typedArraySet out
    (subarray src ((y * w + L) * 4) ((y * w + L) * 4 + cw * 4)) (y * cw * 4)
  = Return (take (Z.to_nat (y * (cw * 4))) out
            ++ byteSpan src ((y * w + L) * 4) (cw * 4)
            ++ drop (Z.to_nat (y * (cw * 4))
                     + length (byteSpan src ((y * w + L) * 4) (cw * 4))) out)
  /\ Z.of_nat (length (byteSpan src ((y * w + L) * 4) (cw * 4))) = cw * 4.
Proof.
  intros Hy Hlen.
  destruct (subarray_in_range src ((y * w + L) * 4) (cw * 4)) as [Hsub Hsublen];
    [nia | lia | nia |].
  rewrite Hsub. split; [|exact Hsublen].
  replace (y * cw * 4) with (y * (cw * 4)) by lia.
  apply typedArraySet_fits; nia.
Qed.

(** Rows already written stay written, and each new row is the source span. *)
Lemma cropRows_rows (n : nat) :
  forall (y : Z) (out out' : list Z),
    0 <= y -> y + Z.of_nat n = h ->
    Z.of_nat (length out) = h * (cw * 4) ->
    (forall y', 0 <= y' < y ->
       byteSpan out (y' * (cw * 4)) (cw * 4)
       = byteSpan src ((y' * w + L) * 4) (cw * 4)) ->
    cropRows src w L cw 4 n y out = Return out' ->
    Z.of_nat (length out') = h * (cw * 4) /\
    forall y', 0 <= y' < h ->
      byteSpan out' (y' * (cw * 4)) (cw * 4)
      = byteSpan src ((y' * w + L) * 4) (cw * 4).
Proof.
  induction n as [|n IH]; intros y out out' Hy Hn Hlen Hdone Hrun;
    cbn [cropRows] in Hrun.
  - injection Hrun as <-. split; [exact Hlen|].
    intros y' Hy'. apply Hdone. lia.
  - destruct (cropRows_step y out ltac:(lia) Hlen) as [Hset Hsublen].
    rewrite Hset in Hrun. cbn [mbind outcome_bind] in Hrun.
    match type of Hrun with
    | cropRows _ _ _ _ _ _ _ ?o = _ => apply (IH (y + 1) o out')
    end; [lia | lia | | | exact Hrun].
    + rewrite !length_app, length_take, length_drop. lia.
    + intros y' Hy'. unfold byteSpan at 1.
      destruct (decide (y' = y)) as [-> | Hne].
      * replace (Z.to_nat (cw * 4))
          with (length (byteSpan src ((y * w + L) * 4) (cw * 4))) at 1 by lia.
        apply splice_at. nia.
      * rewrite splice_before by nia.
        fold (byteSpan out (y' * (cw * 4)) (cw * 4)). apply Hdone. lia.
Qed.

End InRange.

(** Full-width crop: the row loop rebuilds the source, row after row. *)
Lemma cropRows_copy (src : list Z) (w h : Z) (n : nat) :
  Z.of_nat (length src) = w * h * 4 -> 0 <= w ->
  forall (y : Z) (out out' : list Z),
    0 <= y -> y + Z.of_nat n = h ->
    Z.of_nat (length out) = h * (w * 4) ->
    take (Z.to_nat (y * (w * 4))) out = take (Z.to_nat (y * (w * 4))) src ->
    cropRows src w 0 w 4 n y out = Return out' ->
    out' = src.
Proof.
  intros Hsize Hw.
  induction n as [|n IH]; intros y out out' Hy Hn Hlen Hpre Hrun;
    cbn [cropRows] in Hrun.
  - injection Hrun as <-.
    rewrite !take_ge in Hpre by nia. exact Hpre.
  - destruct (cropRows_step src w h 0 w Hsize ltac:(lia) Hw ltac:(lia) y out
                ltac:(lia) Hlen) as [Hset Hsublen].
    rewrite Hset in Hrun. cbn [mbind outcome_bind] in Hrun.
    match type of Hrun with
    | cropRows _ _ _ _ _ _ _ ?o = _ => apply (IH (y + 1) o out')
    end; [lia | lia | | | exact Hrun].
    + rewrite !length_app, length_take, length_drop. lia.
    + rewrite app_assoc, take_app_length'
        by (rewrite length_app, length_take; nia).
      rewrite Hpre. unfold byteSpan.
      replace ((y * w + 0) * 4) with (y * (w * 4)) by lia.
      rewrite take_take_drop. f_equal. nia.
Qed.

Lemma alloc_fresh (σ : store) (bytes : list Z) :
  σ !! (alloc σ bytes).1 = None
  /\ (alloc σ bytes).2 = <[(alloc σ bytes).1 := bytes]> σ
  /\ forall a v, σ !! a = Some v -> (alloc σ bytes).2 !! a = Some v.
Proof.
  unfold alloc. cbn [fst snd].
  assert (Hfresh : σ !! fresh (dom σ) = None).
  { apply not_elem_of_dom, is_fresh. }
  split; [exact Hfresh|]. split; [reflexivity|].
  intros a v Ha. rewrite lookup_insert_ne; [exact Ha|]. congruence.
Qed.

(** The shape of every result: a new address holding the bytes of [out]. *)
Lemma cropHorizontalBuffer_shape (σ : store) (buffer : addr) (w h l r : Z)
    (bpp : option Z) (res : Cropped) (σ' : store) :
  cropHorizontalBuffer σ buffer w h l r bpp = Return (res, σ') ->
  let cw := Z.max 0 (r - l + 1) in
  let zeros := replicate (Z.to_nat (cw * h * default 4 bpp)) 0 in
  exists out,
    res = {| buffer := fresh (dom σ); width := cw; height := h |} /\
    σ' = <[fresh (dom σ) := out]> σ /\
    (((cw = 0 \/ w = 0 \/ h = 0) /\ out = zeros) \/
     (cw <> 0 /\ w <> 0 /\ h <> 0 /\
      cropRows (default [] (σ !! buffer)) w l cw (default 4 bpp) (Z.to_nat h) 0 zeros
        = Return out)).
Proof.
  intros Hrun cw zeros. unfold cropHorizontalBuffer, cropHorizontalBufferWith, newUint8Array in Hrun.
  fold cw in Hrun.
  destruct (cw * h * default 4 bpp <? 0); [discriminate|].
  cbn [mbind outcome_bind] in Hrun. fold zeros in Hrun.
  destruct ((cw =? 0) || (w =? 0) || (h =? 0)) eqn:Hdeg.
  - unfold alloc in Hrun. injection Hrun as <- <-.
    exists zeros. split; [reflexivity|]. split; [reflexivity|].
    left. split; [lia | reflexivity].
  - destruct (cropRows _ w l cw _ (Z.to_nat h) 0 zeros) as [out| |] eqn:Hrows;
      try discriminate.
    cbn [mbind outcome_bind] in Hrun. unfold alloc in Hrun.
    injection Hrun as <- <-.
    exists out. split; [reflexivity|]. split; [reflexivity|].
    right. repeat split; lia.
Qed.

(** C2.  For a [w] x [h] source at 4 bytes per pixel and inclusive bounds
    [0 <= L <= R < w], the crop returns a buffer of width [R - L + 1] and
    height [h], of [(R - L + 1) * h * 4] bytes, whose row [y], at stride
    [(R - L + 1) * 4], is byte for byte the source span
    [(y * w + L) * 4, (y * w + R + 1) * 4). *)
Theorem cropHorizontalBuffer_rows (σ : store) (buffer : addr) (src : list Z)
    (w h L R : Z) (bpp : option Z) :
  σ !! buffer = Some src ->
  Z.of_nat (length src) = w * h * 4 ->
  0 <= h -> 0 <= L <= R -> R < w ->
  default 4 bpp = 4 ->
  exists (a : addr) (out : list Z),
    cropHorizontalBuffer σ buffer w h L R bpp
      = Return ({| buffer := a; width := R - L + 1; height := h |}, <[a := out]> σ) /\
    σ !! a = None /\
    Z.of_nat (length out) = (R - L + 1) * h * 4 /\
    forall y, 0 <= y < h ->
      byteSpan out (y * ((R - L + 1) * 4)) ((R - L + 1) * 4)
      = byteSpan src ((y * w + L) * 4) ((R - L + 1) * 4).
Proof.
  intros Hsrc Hsize Hh HLR HR Hbpp.
  assert (Hfresh : σ !! fresh (dom σ) = None) by apply not_elem_of_dom, is_fresh.
  unfold cropHorizontalBuffer, cropHorizontalBufferWith, newUint8Array. rewrite Hsrc, Hbpp.
  replace (Z.max 0 (R - L + 1)) with (R - L + 1) by lia.
  set (cw := R - L + 1). change (default [] (Some src)) with src.
  destruct (cw * h * 4 <? 0) eqn:Hneg; [nia|].
  cbn [mbind outcome_bind].
  set (zeros := replicate (Z.to_nat (cw * h * 4)) 0).
  assert (Hzlen : Z.of_nat (length zeros) = h * (cw * 4)).
  { unfold zeros. rewrite length_replicate. nia. }
  destruct ((cw =? 0) || (w =? 0) || (h =? 0)) eqn:Hdeg.
  - assert (h = 0) as -> by lia.
    exists (fresh (dom σ)), zeros. unfold alloc.
    split; [reflexivity|]. split; [exact Hfresh|]. split; [lia|].
    intros y Hy. lia.
  - destruct (cropRows_total src w L cw 4 (Z.to_nat h) 0 zeros)
      as (out & Hrows & _); [lia | lia | lia |].
    rewrite Hrows. cbn [mbind outcome_bind]. unfold alloc.
    exists (fresh (dom σ)), out.
    split; [reflexivity|]. split; [exact Hfresh|].
    destruct (cropRows_rows src w h L cw Hsize ltac:(lia) ltac:(lia) ltac:(lia)
                (Z.to_nat h) 0 zeros out ltac:(lia) ltac:(lia) Hzlen
                ltac:(intros; lia) Hrows) as [Hlen Hspans].
    split; [lia | exact Hspans].
Qed.

Lemma cropHorizontalBuffer_rows_witness :
  exists (a : addr) (out : list Z),
    cropHorizontalBuffer bandImage 0%nat 3 2 1 1 None
      = Return ({| buffer := a; width := 1 - 1 + 1; height := 2 |},
                <[a := out]> bandImage) /\
    bandImage !! a = None /\
    Z.of_nat (length out) = (1 - 1 + 1) * 2 * 4 /\
    forall y, 0 <= y < 2 ->
      byteSpan out (y * ((1 - 1 + 1) * 4)) ((1 - 1 + 1) * 4)
      = byteSpan [255; 255; 255; 255;  0; 0; 0; 255;  255; 255; 255; 255;
                  255; 255; 255; 255;  0; 0; 0; 255;  255; 255; 255; 255]
          ((y * 3 + 1) * 4) ((1 - 1 + 1) * 4).
Proof.
  apply (cropHorizontalBuffer_rows bandImage 0%nat _ 3 2 1 1 None).
  - reflexivity.
  - reflexivity.
  - lia.
  - lia.
  - lia.
  - reflexivity.
Defined.

(** C5, as stated, fails: on the 1 x 1 image at address 0 a full-width crop
    ([left = right = 0]) returns address 1 with a copy of the pixel, and an
    empty crop ([left = 1], [right = 0]) returns address 1 with no bytes and
    width 0.  Neither result is the input buffer. *)
Lemma cropHorizontalBuffer_degenerate_allocates :
  cropHorizontalBuffer whiteDot 0%nat 1 1 0 0 None
    = Return ({| buffer := 1%nat; width := 1; height := 1 |},
              <[1%nat := [255; 255; 255; 255]]> whiteDot)
  /\ cropHorizontalBuffer whiteDot 0%nat 1 1 1 0 None
    = Return ({| buffer := 1%nat; width := 0; height := 1 |},
              <[1%nat := []]> whiteDot).
Proof. split; vm_compute; reflexivity. Qed.

(** C5, amended.  [cropHorizontalBuffer] never returns its input buffer:
    whenever it returns, the result is a buffer at an address that was not in
    the store, and every buffer of the store keeps its bytes.  The result has
    width [max 0 (right - left + 1)] and the given height.  When
    [right - left + 1 <= 0] the new buffer is empty; when [left = 0] and
    [right = width - 1] on a [width] x [height] source at 4 bytes per pixel,
    the new buffer holds the same bytes as the source. *)
Theorem cropHorizontalBuffer_allocates (σ : store) (buffer : addr)
    (w h l r : Z) (bpp : option Z) (res : Cropped) (σ' : store) :
  cropHorizontalBuffer σ buffer w h l r bpp = Return (res, σ') ->
  σ !! TrimCore.buffer res = None /\
  (forall a bytes, σ !! a = Some bytes -> σ' !! a = Some bytes) /\
  width res = Z.max 0 (r - l + 1) /\ height res = h /\
  (r - l + 1 <= 0 -> σ' !! TrimCore.buffer res = Some []) /\
  (forall src, σ !! buffer = Some src -> Z.of_nat (length src) = w * h * 4 ->
     0 <= h -> l = 0 -> r = w - 1 -> default 4 bpp = 4 ->
     σ' !! TrimCore.buffer res = Some src).
Proof.
  intros Hrun.
  destruct (cropHorizontalBuffer_shape σ buffer w h l r bpp res σ' Hrun)
    as (out & -> & -> & Hout).
  cbn [TrimCore.buffer width height].
  assert (Hfresh : σ !! fresh (dom σ) = None) by apply not_elem_of_dom, is_fresh.
  split; [exact Hfresh|]. split.
  { intros a bytes Ha. rewrite lookup_insert_ne; [exact Ha | congruence]. }
  split; [reflexivity|]. split; [reflexivity|].
  rewrite lookup_insert_eq. split.
  - intros Hempty. f_equal.
    destruct Hout as [[_ ->] | (Hcw & _)]; [|lia].
    replace (Z.max 0 (r - l + 1)) with 0 by lia. reflexivity.
  - intros src Hsrc Hsize Hh -> -> Hbpp. f_equal.
    rewrite Hsrc, Hbpp in Hout. change (default [] (Some src)) with src in Hout.
    replace (w - 1 - 0 + 1) with w in Hout by lia.
    destruct Hout as [[Hdeg ->] | (Hcw & Hw & Hh0 & Hrows)].
    + assert (Hnil : forall k : list Z, length k = 0%nat -> k = []).
      { intros [|? ?]; [reflexivity | discriminate]. }
      rewrite (Hnil (replicate _ _)), (Hnil src); [reflexivity | nia |].
      rewrite length_replicate. nia.
    + replace (Z.max 0 w) with w in * by lia.
      refine (cropRows_copy src w h (Z.to_nat h) Hsize _ 0 _ out _ _ _ _ Hrows);
        [lia | lia | lia | rewrite length_replicate; nia | reflexivity].
Qed.

Lemma cropHorizontalBuffer_allocates_witness :
  whiteDot !! 1%nat = None /\
  (forall a bytes, whiteDot !! a = Some bytes ->
     <[1%nat := [255; 255; 255; 255]]> whiteDot !! a = Some bytes) /\
  1 = Z.max 0 (0 - 0 + 1) /\ 1 = 1 /\
  (0 - 0 + 1 <= 0 ->
   <[1%nat := [255; 255; 255; 255]]> whiteDot !! 1%nat = Some []) /\
  (forall src, whiteDot !! 0%nat = Some src -> Z.of_nat (length src) = 1 * 1 * 4 ->
     0 <= 1 -> 0 = 0 -> 0 = 1 - 1 -> default 4 None = 4 ->
     <[1%nat := [255; 255; 255; 255]]> whiteDot !! 1%nat = Some src).
Proof.
  apply (cropHorizontalBuffer_allocates whiteDot 0%nat 1 1 0 0 None
           {| buffer := 1%nat; width := 1; height := 1 |}
           (<[1%nat := [255; 255; 255; 255]]> whiteDot)).
  vm_compute. reflexivity.
Defined.


Lemma newUint8Array_allocator : typedArrayAllocator newUint8Array.
Proof.
  intros len. unfold newUint8Array.
  destruct (len <? 0) eqn:Hneg; [left; reflexivity|].
  right. split; [lia | reflexivity].
Qed.





End CropFacts.

(** ** Further facts about the encoder and the renderer *)

Section PatternFacts.
Import Code128 EncoderSpec RenderSpec.

Lemma patternAt_outside (c : Z) : c < 0 \/ 106 < c -> patternAt c = None.
Proof.
  intros Hc. unfold patternAt. destruct (c <? 0) eqn:Hneg; [reflexivity|].
  apply lookup_ge_None.
  change (length CODE128_PATTERNS) with 107%nat. lia.
Qed.

Lemma expandCodes_cons (c : Z) (codes : list Z) :
  expandCodes (c :: codes) = patternDigits c ++ expandCodes codes.
Proof. reflexivity. Qed.

Lemma expandCodes_app (l k : list Z) :
  expandCodes (l ++ k) = expandCodes l ++ expandCodes k.
Proof. unfold expandCodes. rewrite fmap_app. apply join_app. Qed.

Lemma codesToModulesLoop_cases (codes modules : list Z) :
  (Forall inTable codes /\
   codesToModulesLoop codes modules = Return (modules ++ expandCodes codes)) \/
  (exists (i : nat) (c : Z),
      codes !! i = Some c /\ (c < 0 \/ 106 < c) /\
      Forall inTable (take i codes) /\
      codesToModulesLoop codes modules = Throw (patternNotFound c)).
Proof.
  revert modules; induction codes as [|c codes IH]; intros modules.
  - left. split; [constructor|]. simpl. rewrite app_nil_r. reflexivity.
  - cbn [codesToModulesLoop].
    destruct (decide (0 <= c <= 106)) as [Hin | Hout].
    + pose proof (validCode_table c Hin) as Hv. unfold validCode in Hv.
      rewrite expandCodes_cons. unfold patternDigits at 1.
      destruct (patternAt c) as [[|a p]|]; try discriminate.
      destruct (IH (modules ++ (digitValue <$> list_ascii_of_string (String a p))))
        as [[Hall Hret] | (i & c' & Hi & Hc' & Hpre & Hthrow)].
      * left. split; [constructor; assumption|].
        rewrite Hret, <- app_assoc. reflexivity.
      * right. exists (S i), c'. cbn [lookup list_lookup take].
        split; [exact Hi|]. split; [exact Hc'|].
        split; [constructor; assumption | exact Hthrow].
    + right. exists 0%nat, c. rewrite patternAt_outside by lia.
      split; [reflexivity|]. split; [lia|]. split; [constructor | reflexivity].
Qed.

(** X1.  [codesToModules] returns the patterns of all the codes, in order,
    when every code lies in the table; otherwise it throws the error that
    names the first code outside [0, 106], and returns no modules. *)
Theorem codesToModules_contract (codes : list Z) :
  (Forall inTable codes /\ codesToModules codes = Return (expandCodes codes)) \/
  (exists (i : nat) (c : Z),
      codes !! i = Some c /\ (c < 0 \/ 106 < c) /\
      Forall inTable (take i codes) /\
      codesToModules codes
        = Throw (Error (js "Pattern not found for code " ++ numberToString c))).
Proof.
  unfold codesToModules.
  destruct (codesToModulesLoop_cases codes []) as [[Hall Hret] | Hthrow].
  - left. split; [exact Hall | exact Hret].
  - right. exact Hthrow.
Qed.

Lemma dataShape_table (c : Z) : 0 <= c <= 105 -> dataShape c = true.
Proof.
  intros Hc.
  assert (Hall : forallb dataShape (seqZ 0 106) = true) by (vm_compute; reflexivity).
  rewrite forallb_forall in Hall. apply Hall.
  apply list_elem_of_In, elem_of_seqZ. lia.
Qed.

Lemma expandCodes_data (codes : list Z) :
  Forall (fun c => 0 <= c <= 105) codes ->
  length (expandCodes codes) = (6 * length codes)%nat /\
  sumZ (expandCodes codes) = 11 * Z.of_nat (length codes) /\
  Forall (fun m => 1 <= m <= 4) (expandCodes codes).
Proof.
  assert (Hsum : forall l k, sumZ (l ++ k) = sumZ l + sumZ k).
  { induction l as [|x l IHl]; intros k; simpl; [reflexivity|].
    unfold sumZ in *. simpl. rewrite IHl. lia. }
  induction 1 as [|c codes Hc Hcodes (IHlen & IHsum & IHall)].
  - repeat split. constructor.
  - pose proof (dataShape_table c Hc) as Hshape. unfold dataShape in Hshape.
    apply andb_prop in Hshape as [Hshape H14].
    apply andb_prop in Hshape as [H6 H11].
    apply Nat.eqb_eq in H6. apply Z.eqb_eq in H11.
    rewrite forallb_forall in H14.
    rewrite expandCodes_cons. split; [|split].
    + rewrite length_app, H6, IHlen. simpl. lia.
    + rewrite Hsum, H11, IHsum. simpl length. lia.
    + apply Forall_app. split; [|exact IHall].
      apply Forall_forall. intros m Hm.
      apply list_elem_of_In, H14 in Hm. lia.
Qed.

Lemma computeCodes_structure (text : jsstring) :
  Forall inSetB text ->
  exists data,
    computeCodesForSetB text = (104 :: data) ++ [106] /\
    length data = S (length text) /\
    Forall (fun c => 0 <= c <= 105) (104 :: data).
Proof.
  intros Hall.
  exists (((fun c => c - 32) <$> text) ++ [Z.rem (checksumLoop START_CODE_B text 0) 103]).
  split; [|split].
  - unfold computeCodesForSetB. rewrite pushCodes_map. reflexivity.
  - rewrite length_app, length_fmap. simpl. lia.
  - constructor; [lia|]. apply Forall_app. split.
    + rewrite Forall_fmap. eapply Forall_impl; [exact Hall|].
      intros c Hc. unfold inSetB in Hc. simpl. lia.
    + constructor; [|constructor].
      pose proof (checksum_range text Hall). lia.
Qed.

(** X2.  For a text of [n] printable characters the encoder returns
    [6 n + 19] modules, each between 1 and 4, that sum to [11 n + 35]: eleven
    units per symbol and thirteen for the stop pattern.  The sequence opens
    with the START-B pattern 2 1 1 2 1 4 and closes with the stop pattern
    2 3 3 1 1 1 2. *)
Theorem encodeCode128BToModules_shape (text : jsstring) :
  Forall inSetB text ->
  exists modules,
    encodeCode128BToModules text = Return modules /\
    modules = expandCodes (computeCodesForSetB text) /\
    length modules = (6 * length text + 19)%nat /\
    Forall (fun m => 1 <= m <= 4) modules /\
    sumZ modules = 11 * Z.of_nat (length text) + 35 /\
    take 6 modules = [2; 1; 1; 2; 1; 4] /\
    drop (6 * length text + 12) modules = [2; 3; 3; 1; 1; 1; 2].
Proof.
  intros Hvalid.
  assert (Hsum : forall l k, sumZ (l ++ k) = sumZ l + sumZ k).
  { induction l as [|x l IHl]; intros k; simpl; [reflexivity|].
    unfold sumZ in *. simpl. rewrite IHl. lia. }
  destruct (computeCodes_structure text Hvalid) as (data & Hcodes & Hlen & Hdata).
  destruct (expandCodes_data (104 :: data) Hdata) as (Elen & Esum & Eall).
  exists (expandCodes (computeCodesForSetB text)). split.
  - unfold encodeCode128BToModules, assertCodeSetBCompatible.
    destruct (assertLoop_cases text 0) as [[_ Hret] | (k & c & Hk & Hc & _ & _)].
    + rewrite Hret. cbn [mbind outcome_bind]. unfold codesToModules.
      destruct (codesToModulesLoop_cases (computeCodesForSetB text) [])
        as [[_ Hrun] | (i & c & Hi & Hc & _ & _)]; [exact Hrun|].
      exfalso. pose proof (computeCodes_in_table text Hvalid) as Htab.
      rewrite Forall_lookup in Htab. specialize (Htab i c Hi). simpl in Htab. lia.
    + exfalso. rewrite Forall_lookup in Hvalid. specialize (Hvalid k c Hk).
      unfold inSetB in Hvalid. lia.
  - split; [reflexivity|]. rewrite Hcodes, expandCodes_app.
    change (expandCodes [106]) with [2; 3; 3; 1; 1; 1; 2].
    rewrite length_cons, Hlen in Elen, Esum.
    split; [|split; [|split; [|split]]].
    + rewrite length_app, Elen. cbn [length]. lia.
    + apply Forall_app. split; [exact Eall|].
      repeat constructor; lia.
    + rewrite Hsum, Esum. change (sumZ [2; 3; 3; 1; 1; 1; 2]) with 13. lia.
    + rewrite expandCodes_cons, <- app_assoc. reflexivity.
    + apply drop_app_length'. rewrite Elen. lia.
Qed.

Lemma encodeCode128BToModules_shape_witness :
  exists modules,
    encodeCode128BToModules (js "HELLO-128") = Return modules /\
    modules = expandCodes (computeCodesForSetB (js "HELLO-128")) /\
    length modules = (6 * length (js "HELLO-128") + 19)%nat /\
    Forall (fun m => 1 <= m <= 4) modules /\
    sumZ modules = 11 * Z.of_nat (length (js "HELLO-128")) + 35 /\
    take 6 modules = [2; 1; 1; 2; 1; 4] /\
    drop (6 * length (js "HELLO-128") + 12) modules = [2; 3; 3; 1; 1; 1; 2].
Proof.
  apply (encodeCode128BToModules_shape (js "HELLO-128")).
  vm_compute. repeat constructor; discriminate.
Defined.

End PatternFacts.

Section EscapeFacts.
Import Code128 EncoderSpec RenderSpec.

Lemma replaceAll_cons (c : Z) (by_ : list Z) (x : Z) (l : list Z) :
  replaceAll c by_ (x :: l) = (if x =? c then by_ else [x]) ++ replaceAll c by_ l.
Proof. reflexivity. Qed.

Lemma replaceAll_app (c : Z) (by_ l k : list Z) :
  replaceAll c by_ (l ++ k) = replaceAll c by_ l ++ replaceAll c by_ k.
Proof. unfold replaceAll. rewrite fmap_app. apply join_app. Qed.

Lemma escapeXml_app (l k : list Z) :
  escapeXml (l ++ k) = escapeXml l ++ escapeXml k.
Proof. unfold escapeXml. rewrite !replaceAll_app. reflexivity. Qed.

Lemma escapeXml_single (c : Z) : escapeXml [c] = escapeChar c.
Proof.
  unfold escapeXml, escapeChar.
  rewrite (replaceAll_cons 38). change (replaceAll 38 (js "&amp;") []) with (@nil Z).
  destruct (c =? 38) eqn:H38.
  { apply Z.eqb_eq in H38. subst c. vm_compute. reflexivity. }
  rewrite app_nil_r, (replaceAll_cons 60).
  change (replaceAll 60 (js "&lt;") []) with (@nil Z).
  destruct (c =? 60) eqn:H60.
  { apply Z.eqb_eq in H60. subst c. vm_compute. reflexivity. }
  rewrite app_nil_r, (replaceAll_cons 62).
  change (replaceAll 62 (js "&gt;") []) with (@nil Z).
  destruct (c =? 62) eqn:H62.
  { apply Z.eqb_eq in H62. subst c. vm_compute. reflexivity. }
  rewrite app_nil_r, (replaceAll_cons 34).
  change (replaceAll 34 (js "&quot;") []) with (@nil Z).
  destruct (c =? 34) eqn:H34.
  { apply Z.eqb_eq in H34. subst c. vm_compute. reflexivity. }
  rewrite app_nil_r, (replaceAll_cons 39).
  change (replaceAll 39 (js "&apos;") []) with (@nil Z).
  destruct (c =? 39) eqn:H39.
  { apply Z.eqb_eq in H39. subst c. vm_compute. reflexivity. }
  reflexivity.
Qed.

Lemma escapeXml_cons (c : Z) (s : list Z) :
  escapeXml (c :: s) = escapeChar c ++ escapeXml s.
Proof.
  change (c :: s) with ([c] ++ s). rewrite escapeXml_app, escapeXml_single.
  reflexivity.
Qed.

(** X4.  The five chained replacements of [escapeXml] amount to one pass
    that maps each character on its own: [&], [<], [>], the double and the
    single quote to their entities, any other character to itself.  The
    ampersands of the entities are not escaped again, and escaping
    distributes over concatenation. *)
Theorem escapeXml_per_character (s t : list Z) :
  escapeXml s = mjoin (escapeChar <$> s) /\
  escapeXml (s ++ t) = escapeXml s ++ escapeXml t.
Proof.
  split; [|apply escapeXml_app].
  induction s as [|c s IH]; [reflexivity|].
  rewrite escapeXml_cons, IH. reflexivity.
Qed.

Lemma escapeChar_plain (c : Z) : ~ xmlSpecial c -> escapeChar c = [c].
Proof.
  intros Hc. unfold xmlSpecial in Hc. unfold escapeChar.
  destruct (c =? 38) eqn:H38; [lia|]. destruct (c =? 60) eqn:H60; [lia|].
  destruct (c =? 62) eqn:H62; [lia|]. destruct (c =? 34) eqn:H34; [lia|].
  destruct (c =? 39) eqn:H39; [lia|]. reflexivity.
Qed.

(** X5.  A string with none of the five reserved characters is returned as
    it is, and what [escapeXml] returns never holds [<], [>], a double or a
    single quote. *)
Theorem escapeXml_clean_and_safe (s : list Z) :
  (Forall (fun c => ~ xmlSpecial c) s -> escapeXml s = s) /\
  Forall markupFree (escapeXml s).
Proof.
  split; [|apply escapeXml_markupFree].
  induction 1 as [|c s Hc Hs IH]; [reflexivity|].
  rewrite escapeXml_cons, escapeChar_plain, IH by exact Hc. reflexivity.
Qed.

Lemma escapeXml_clean_and_safe_witness :
  escapeXml (js "HELLO-128") = js "HELLO-128".
Proof.
  apply (escapeXml_clean_and_safe (js "HELLO-128")).
  vm_compute. repeat constructor; intros Hc; lia.
Defined.

Lemma escapeChar_cons (c : Z) : exists d rest, escapeChar c = d :: rest.
Proof.
  unfold escapeChar.
  destruct (c =? 38); [vm_compute; eauto|]. destruct (c =? 60); [vm_compute; eauto|].
  destruct (c =? 62); [vm_compute; eauto|]. destruct (c =? 34); [vm_compute; eauto|].
  destruct (c =? 39); [vm_compute; eauto|]. eauto.
Qed.

Lemma escapeChar_inj_app (c d : Z) (u v : list Z) :
  escapeChar c ++ u = escapeChar d ++ v -> c = d /\ u = v.
Proof.
  unfold escapeChar.
  destruct (c =? 38) eqn:C38; [|destruct (c =? 60) eqn:C60;
    [|destruct (c =? 62) eqn:C62; [|destruct (c =? 34) eqn:C34;
    [|destruct (c =? 39) eqn:C39]]]];
  (destruct (d =? 38) eqn:D38; [|destruct (d =? 60) eqn:D60;
    [|destruct (d =? 62) eqn:D62; [|destruct (d =? 34) eqn:D34;
    [|destruct (d =? 39) eqn:D39]]]]);
  vm_compute (js _); cbn [app]; intros Heq; injection Heq; intros; subst;
  try discriminate; try lia; split; (lia || reflexivity).
Qed.

(** X6.  [escapeXml] loses nothing: two strings with the same escaped form
    are the same string. *)
Theorem escapeXml_injective (s t : list Z) :
  escapeXml s = escapeXml t -> s = t.
Proof.
  revert t; induction s as [|c s IH]; intros [|d t] Heq.
  - reflexivity.
  - rewrite escapeXml_cons in Heq. destruct (escapeChar_cons d) as (x & r & Hd).
    rewrite Hd in Heq. discriminate.
  - rewrite escapeXml_cons in Heq. destruct (escapeChar_cons c) as (x & r & Hc).
    rewrite Hc in Heq. discriminate.
  - rewrite !escapeXml_cons in Heq.
    apply escapeChar_inj_app in Heq as [-> Hrest].
    f_equal. apply IH, Hrest.
Qed.

Lemma escapeXml_injective_witness : js "a<b" = js "a<b".
Proof.
  apply (escapeXml_injective (js "a<b") (js "a<b")). reflexivity.
Defined.

End EscapeFacts.

Section RenderShapeFacts.
Import Code128 EncoderSpec RenderSpec PrimFloat.

Lemma sumZ_app (l k : list Z) : sumZ (l ++ k) = sumZ l + sumZ k.
Proof.
  induction l as [|x l IH]; [reflexivity|].
  unfold sumZ in *. simpl. rewrite IH. lia.
Qed.

Lemma encode_modules_sum (text : jsstring) :
  Forall inSetB text ->
  exists modules,
    encodeCode128BToModules text = Return modules /\
    sumZ modules = 11 * Z.of_nat (length text) + 35 /\
    length modules = (6 * length text + 19)%nat /\
    Forall (fun m => 1 <= m <= 4) modules.
Proof.
  intros Hvalid.
  destruct (encode_valid_returns text Hvalid) as [modules Henc].
  exists modules. split; [exact Henc|].
  unfold encodeCode128BToModules, assertCodeSetBCompatible in Henc.
  destruct (assertLoop text 0) as [[]| |]; try discriminate.
  cbn [mbind outcome_bind] in Henc. unfold codesToModules in Henc.
  cbv zeta in Henc.
  destruct (codesToModulesLoop_cases (computeCodesForSetB text) [])
    as [[_ Hrun] | (i & c & _ & _ & _ & Hthrow)]; [|congruence].
  cbn [app] in Hrun.
  assert (modules = expandCodes (computeCodesForSetB text)) as -> by congruence.
  destruct (computeCodes_structure text Hvalid) as (data & Hcodes & Hlen & Hdata).
  destruct (expandCodes_data (104 :: data) Hdata) as (Elen & Esum & Eall).
  rewrite length_cons, Hlen in Elen, Esum.
  rewrite Hcodes, expandCodes_app.
  change (expandCodes [106]) with [2; 3; 3; 1; 1; 1; 2].
  rewrite sumZ_app, length_app, Esum, Elen.
  change (sumZ [2; 3; 3; 1; 1; 1; 2]) with 13. cbn [length].
  split; [lia|]. split; [lia|].
  apply Forall_app. split; [exact Eall|]. repeat constructor; lia.
Qed.

(** The root element of the markup, read back: its [width] and its [height]
    come before anything else that could be taken for them. *)
Lemma declared_of_root (W H inner after : list Z) :
  Forall plainChar W -> Forall plainChar H ->
  let svg :=
    (js "<?xml" ++ attr "version" (js "1.0") ++ attr "encoding" (js "UTF-8") ++
     js "?>" ++ [10]) ++
    (js "<svg" ++ attr "xmlns" (js "http://www.w3.org/2000/svg") ++
     attr "width" W ++ attr "height" H ++ inner) ++ after in
  declaredAttr "width" svg = Some W /\ declaredAttr "height" svg = Some H.
Proof.
  intros HW HH svg. subst svg.
  destruct (plain_no_space_no_quote W HW) as [HW32 HW34].
  destruct (plain_no_space_no_quote H HH) as [HH32 HH34].
  unfold declaredAttr, attr. rewrite <- !app_assoc.
  vm_compute (js _). unfold dq.
  cbn [app afterFirst startsWith Z.eqb Pos.eqb andb length drop].
  split.
  - cbn [fmap option_fmap option_map]. f_equal. apply upToQuote_app, HW34.
  - rewrite afterFirst_skip by exact HW32.
    cbn [app afterFirst startsWith Z.eqb Pos.eqb andb length drop
         fmap option_fmap option_map].
    f_equal. apply upToQuote_app, HH34.
Qed.

Lemma render_declared_from_modules (text : jsstring) (o : Code128RenderOptions)
    (modules : list Z) :
  encodeCode128BToModules text = Return modules ->
  exists svg,
    renderCode128BToSvg text o = Return svg /\
    declaredAttr "width" svg
      = Some (doubleToString (widthOf (sumModules modules) o)) /\
    declaredAttr "height" svg
      = Some (doubleToString (default 60%float (height o))).
Proof.
  intros Henc. unfold renderCode128BToSvg. rewrite Henc.
  cbn [mbind outcome_bind]. cbv zeta.
  eexists. split; [reflexivity|].
  apply (declared_of_root (doubleToString (widthOf (sumModules modules) o))
           (doubleToString (default 60%float (height o))));
    apply doubleToString_plain.
Qed.


(** X3.  The declared width depends on the text only through its length: for
    [n] printable characters, [11 n + 35] being at most 2^53, it is the
    double [(11 n + 35 + quietZone * 2) * moduleWidth], as JavaScript prints
    it. *)
Theorem renderCode128BToSvg_width_by_length (text : jsstring)
    (o : Code128RenderOptions) :
  Forall inSetB text ->
  11 * Z.of_nat (length text) + 35 <= 2 ^ 53 ->
  exists svg,
    renderCode128BToSvg text o = Return svg /\
    declaredAttr "width" svg
      = Some (doubleToString (widthOf (11 * Z.of_nat (length text) + 35) o)).
Proof.
  intros Hvalid Hfit.
  destruct (encode_modules_sum text Hvalid) as (modules & Henc & Hsum & _ & Hall).
  destruct (render_declared_from_modules text o modules Henc)
    as (svg & Hsvg & Hwidth & _).
  exists svg. split; [exact Hsvg|]. rewrite Hwidth.
  rewrite sumModules_exact, Hsum; [reflexivity | | lia].
  eapply Forall_impl; [exact Hall|]. intros m Hm. simpl in Hm. lia.
Qed.

(** X7.  Whatever the options, the renderer returns markup exactly when every
    character of the text lies in [32, 126]; otherwise it throws the encoder's
    error for the first offending character and returns no markup. *)
Theorem renderCode128BToSvg_contract (text : jsstring) (o : Code128RenderOptions) :
  (Forall inSetB text /\
   exists svg, renderCode128BToSvg text o = Return svg) \/
  (exists (i : nat) (code : Z),
      text !! i = Some code /\ (code < 32 \/ 126 < code) /\
      Forall inSetB (take i text) /\
      renderCode128BToSvg text o
        = Throw (Error (unsupportedMessage (Z.of_nat i) code))).
Proof.
  destruct (assertLoop_cases text 0)
    as [[Hall _] | (k & c & Hk & Hc & Hpre & Hthrow)].
  - left. split; [exact Hall|].
    destruct (encode_valid_returns text Hall) as [modules Henc].
    unfold renderCode128BToSvg. rewrite Henc. cbn [mbind outcome_bind]. eauto.
  - right. exists k, c. split; [exact Hk|]. split; [exact Hc|].
    split; [exact Hpre|].
    unfold renderCode128BToSvg, encodeCode128BToModules, assertCodeSetBCompatible.
    rewrite Hthrow. reflexivity.
Qed.

End RenderShapeFacts.

Section RenderShapeExamples.
Import Code128 EncoderSpec RenderSpec PrimFloat.


(** With a module width of one tenth the text [A], 46 modules between two
    quiet zones of 10, declares the double [66 * 0.1], which is not 6.6. *)
Lemma renderCode128BToSvg_tenth_example :
  exists svg,
    renderCode128BToSvg (js "A") tenthWide = Return svg /\
    declaredAttr "width" svg = Some (js "6.6000000000000005") /\
    declaredAttr "height" svg = Some (js "60").
Proof. eexists. repeat split; vm_compute; reflexivity. Qed.

(** From 10^21 on a number is printed with an exponent. *)
Lemma renderCode128BToSvg_exponent_example :
  exists svg,
    renderCode128BToSvg (js "A") hugeWide = Return svg /\
    declaredAttr "width" svg = Some (js "6.6e+22").
Proof. eexists. split; vm_compute; reflexivity. Qed.

Lemma renderCode128BToSvg_width_by_length_witness :
  exists svg,
    renderCode128BToSvg (js "HELLO-128") tenthWide = Return svg /\
    declaredAttr "width" svg
      = Some (doubleToString
                (widthOf (11 * Z.of_nat (length (js "HELLO-128")) + 35) tenthWide)).
Proof.
  apply (renderCode128BToSvg_width_by_length (js "HELLO-128") tenthWide).
  - vm_compute. repeat constructor; discriminate.
  - vm_compute. discriminate.
Defined.

End RenderShapeExamples.

Section BarFacts.
Import Code128 EncoderSpec RenderSpec.

Variables (moduleWidth barsHeight : PrimFloat.float) (barColor : jsstring).

Lemma barCount_SS (n : nat) : barCount (S (S n)) = S (barCount n).
Proof. reflexivity. Qed.

Lemma barX_0 (modules : list Z) (x0 : PrimFloat.float) :
  barX modules moduleWidth x0 0 = x0.
Proof. reflexivity. Qed.

Lemma barWidth_0 (m : Z) (modules : list Z) :
  barWidth (m :: modules) moduleWidth 0 = PrimFloat.mul (numberOfZ m) moduleWidth.
Proof. reflexivity. Qed.

Lemma barX_S (m1 m2 : Z) (rest : list Z) (x0 : PrimFloat.float) (i : nat) :
  barX (m1 :: m2 :: rest) moduleWidth x0 (S i)
  = barX rest moduleWidth
      (PrimFloat.add (PrimFloat.add x0 (PrimFloat.mul (numberOfZ m1) moduleWidth))
         (PrimFloat.mul (numberOfZ m2) moduleWidth)) i.
Proof.
  unfold barX. replace (2 * S i)%nat with (S (S (2 * i))) by lia. reflexivity.
Qed.

Lemma barWidth_S (m1 m2 : Z) (rest : list Z) (i : nat) :
  barWidth (m1 :: m2 :: rest) moduleWidth (S i) = barWidth rest moduleWidth i.
Proof.
  unfold barWidth. replace (2 * S i)%nat with (S (S (2 * i))) by lia. reflexivity.
Qed.

Lemma barsLoop_bars (n : nat) :
  forall (modules : list Z) (x0 : PrimFloat.float) (svgBars : jsstring),
    (length modules <= n)%nat ->
    barsLoop modules moduleWidth barsHeight barColor x0 true svgBars
    = svgBars ++
      mjoin ((fun i => barRect (barX modules moduleWidth x0 i)
                               (barWidth modules moduleWidth i) barsHeight barColor)
             <$> seq 0 (barCount (length modules))).
Proof.
  induction n as [|n IH]; intros modules x0 svgBars Hlen.
  - destruct modules; [|simpl in Hlen; lia]. simpl. rewrite app_nil_r. reflexivity.
  - destruct modules as [|m1 [|m2 rest]].
    + simpl. rewrite app_nil_r. reflexivity.
    + cbn [barsLoop negb length]. change (barCount 1) with 1%nat.
      cbn [seq fmap list_fmap mjoin list_join].
      rewrite barX_0, barWidth_0, app_nil_r. reflexivity.
    + cbn [barsLoop negb]. rewrite IH by (simpl in Hlen; lia).
      cbn [length]. rewrite barCount_SS. cbn [seq fmap list_fmap mjoin list_join].
      rewrite barX_0, barWidth_0, <- app_assoc. do 2 f_equal.
      rewrite <- fmap_S_seq, <- list_fmap_compose. f_equal.
      apply list_fmap_ext. intros _ i _. cbn [compose].
      rewrite barX_S, barWidth_S. reflexivity.
Qed.

(** X8.  The bar loop emits one rectangle per module at an even position and
    none for the others: [ceil (k / 2)] rectangles for [k] modules, in order.
    Bar [i] is as wide as module [2 i] times [moduleWidth], and it is placed
    where the widths of all the modules before position [2 i], added one by
    one to the start offset in double arithmetic, lead. *)
Theorem barsLoop_positions (modules : list Z) (x0 : PrimFloat.float) :
  barsLoop modules moduleWidth barsHeight barColor x0 true []
  = mjoin ((fun i => barRect (barX modules moduleWidth x0 i)
                             (barWidth modules moduleWidth i) barsHeight barColor)
           <$> seq 0 (barCount (length modules))).
Proof. rewrite (barsLoop_bars (length modules)) by lia. reflexivity. Qed.

End BarFacts.

Section BarExamples.
Import Code128 EncoderSpec RenderSpec.

(** With a module width of 1.2 the fifth bar of [HELLO-128] starts at
    31.199999999999996: the sum of the five steps from 12, each rounded,
    where the product [26 * 1.2] is 31.2. *)
Lemma barsLoop_six_fifths_example :
  exists svg,
    renderCode128BToSvg (js "HELLO-128") sixFifthsWide = Return svg /\
    isInfixOf (js "<rect x=" ++ dq ++ js "31.199999999999996" ++ dq) svg = true /\
    isInfixOf (js "<rect x=" ++ dq ++ js "31.2" ++ dq) svg = false.
Proof. eexists. repeat split; vm_compute; reflexivity. Qed.

End BarExamples.

(** ** Further facts about the trim core *)

Section ScanExtras.
Import TrimCore TrimSpec ScanSpec.



Lemma filter_length_mono {A : Type} (P Q : A -> Prop)
    `{forall x, Decision (P x)} `{forall x, Decision (Q x)} (l : list A) :
  Forall (fun x => P x -> Q x) l ->
  (length (filter P l) <= length (filter Q l))%nat.
Proof.
  induction 1 as [|x l Hx Hl IH]; [reflexivity|].
  rewrite !filter_cons.
  destruct (decide (P x)) as [HP|HP]; destruct (decide (Q x)) as [HQ|HQ];
    simpl; try lia. exfalso. auto.
Qed.


Lemma isBlackAtIndex_threshold_mono (view : list Z) (order : string)
    (t t' idx : Z) :
  t <= t' ->
  isBlackAtIndex view order t idx = true ->
  isBlackAtIndex view order t' idx = true.
Proof.
  intros Ht. unfold isBlackAtIndex.
  destruct (String.eqb order "BGRA");
    match goal with
    | |- context [viewAt view (idx + 3)] =>
        destruct (viewAt view (idx + 3)); [|discriminate]
    end; lia.
Qed.

(** X11.  A higher luminance threshold never gives a tighter crop: when some
    column is inked at threshold [t] and [t <= t'], the bounds at [t'] start
    no later and end no earlier than the bounds at [t]. *)
Theorem computeHorizontalBounds_threshold_mono (σ : store) (a : addr)
    (w h t t' : Z) (o : ScanOptions) (b b' : Bounds) :
  default 4 (bytesPerPixel o) = 4 ->
  1 <= w -> 1 <= h -> 1 <= optStep o ->
  t <= t' ->
  (exists x, 0 <= x < w /\
     inkedColumn (default [] (σ !! a)) w h (withThreshold o t) x) ->
  boundsReturned σ (ArrayBuffer a) w h (withThreshold o t) b ->
  boundsReturned σ (ArrayBuffer a) w h (withThreshold o t') b' ->
  left b' <= left b /\ right b <= right b'.
Proof.
  intros Hbpp Hw Hh Hstep Ht Hsome Hret Hret'.
  set (view := default [] (σ !! a)) in *.
  assert (Hmono : forall x, inkedColumn view w h (withThreshold o t) x ->
                            inkedColumn view w h (withThreshold o t') x).
  { intros x. unfold inkedColumn, columnInked, inkedCount, optThreshold,
      optPixelOrder, optMinHits, optStep, withThreshold.
    cbn [blackThreshold pixelOrder minCoverageRatio sampleStep default
         from_option id].
    intros Hx. etransitivity; [exact Hx|].
    apply inj_le, filter_length_mono.
    apply Forall_forall. intros y _. apply isBlackAtIndex_threshold_mono, Ht. }
  destruct (computeHorizontalBounds_scan σ a w h (withThreshold o t)
              (Z.to_nat w + Z.to_nat h + 2) Hbpp Hw Hh Hstep ltac:(lia))
    as (b0 & Hrun & Hlr & Hr & _ & Hfirst).
  assert (b = b0) as ->.
  { apply (boundsReturned_unique _ _ _ _ _ _ _ Hret). eexists. exact Hrun. }
  destruct (computeHorizontalBounds_scan σ a w h (withThreshold o t')
              (Z.to_nat w + Z.to_nat h + 2) Hbpp Hw Hh Hstep ltac:(lia))
    as (b1 & Hrun' & Hlr' & Hr' & _ & Hfirst').
  assert (b' = b1) as ->.
  { apply (boundsReturned_unique _ _ _ _ _ _ _ Hret'). eexists. exact Hrun'. }
  fold view in Hfirst, Hfirst'.
  destruct (Hfirst Hsome) as (Hl & Hrr & _).
  destruct Hfirst' as (_ & _ & Hall').
  { destruct Hsome as (x & Hx & Hin). exists x. split; [exact Hx | apply Hmono, Hin]. }
  pose proof (Hall' (left b0) ltac:(lia) (Hmono _ Hl)).
  pose proof (Hall' (right b0) ltac:(lia) (Hmono _ Hrr)).
  lia.
Qed.

Lemma computeHorizontalBounds_threshold_mono_witness :
  left {| left := 1; right := 1 |} <= left {| left := 1; right := 1 |} /\
  right {| left := 1; right := 1 |} <= right {| left := 1; right := 1 |}.
Proof.
  apply (computeHorizontalBounds_threshold_mono bandImage 0%nat 3 2 64 100
           defaultScan {| left := 1; right := 1 |} {| left := 1; right := 1 |}).
  - reflexivity.
  - lia.
  - lia.
  - vm_compute. discriminate.
  - lia.
  - exists 1. split; [lia|]. vm_compute. discriminate.
  - exists 10%nat. vm_compute. reflexivity.
  - exists 10%nat. vm_compute. reflexivity.
Defined.



End ScanExtras.

Section CropExtras.
Import TrimCore TrimSpec ScanSpec.



End CropExtras.

Section HarmonyFacts.
Import TrimCore TrimSpec.

Lemma scanColumn_empty_height (view : list Z) (w h bpp : Z) (order : string)
    (t minHits step : Z) (fuel : nat) (x : Z) :
  h <= 0 ->
  scanColumn view w h bpp order t minHits step (S fuel) x 0 0 = Return 0.
Proof.
  intros Hh. cbn [scanColumn]. destruct (0 <? h) eqn:H0; [lia | reflexivity].
Qed.

Lemma scanLeft_empty_height (view : list Z) (w h bpp : Z) (order : string)
    (t minHits step : Z) (n : nat) :
  h <= 0 -> 1 <= minHits ->
  forall (fuel : nat) (l : Z),
    0 <= l <= w -> w - l <= Z.of_nat n -> (n + 1 < fuel)%nat ->
    scanLeft view w h bpp order t minHits step fuel l = Return w.
Proof.
  intros Hh Hmin. induction n as [|n IH]; intros fuel l Hl Hn Hfuel;
    (destruct fuel as [|fuel]; [lia|]); cbn [scanLeft].
  - destruct (l <? w) eqn:Hlt; [lia|]. f_equal. lia.
  - destruct (l <? w) eqn:Hlt; [|f_equal; lia].
    destruct fuel as [|fuel]; [lia|].
    rewrite scanColumn_empty_height by exact Hh. cbn [mbind outcome_bind].
    destruct (0 >=? minHits) eqn:Hge; [lia|].
    apply IH; lia.
Qed.

(** X14.  The scanner of the HarmonyOS unit and the one of the trim core
    agree, fuel for fuel, on every image with pixels at 4 bytes per pixel.
    They part on empty images: where the trim core answers
    [{left: 0, right: 0}], the HarmonyOS copy answers [{0, width - 1}].  The
    two answers are the same for a width of 1 only, and the right bound of
    the HarmonyOS copy is negative exactly when the width is 0 or less. *)
Theorem harmony_scanner_vs_core (σ : store) (a : addr) (w h : Z)
    (o : ScanOptions) (fuel : nat) :
  default 4 (bytesPerPixel o) = 4 ->
  (1 <= w -> 1 <= h ->
   Harmony.computeHorizontalBounds fuel σ a w h o
   = computeHorizontalBounds fuel σ (ArrayBuffer a) w h o) /\
  (w <= 0 \/ h <= 0 -> (Z.to_nat w + 2 < fuel)%nat ->
   exists bH bC,
     Harmony.computeHorizontalBounds fuel σ a w h o = Return bH /\
     computeHorizontalBounds fuel σ (ArrayBuffer a) w h o = Return bC /\
     bH = {| left := 0; right := w - 1 |} /\
     bC = {| left := 0; right := 0 |} /\
     (bH = bC <-> w = 1) /\
     (right bH < 0 <-> w <= 0)).
Proof.
  intros Hbpp. split.
  - intros Hw Hh. unfold Harmony.computeHorizontalBounds, computeHorizontalBounds.
    rewrite Hbpp. change (negb (4 =? 4)) with false. cbv iota.
    destruct ((w <=? 0) || (h <=? 0)) eqn:Hguard; [lia | reflexivity].
  - intros Hempty Hfuel.
    exists {| left := 0; right := w - 1 |}, {| left := 0; right := 0 |}.
    split; [|split; [|split; [reflexivity|split; [reflexivity|split]]]].
    + unfold Harmony.computeHorizontalBounds.
      destruct (decide (w <= 0)) as [Hw | Hw].
      * destruct fuel as [|fuel]; [lia|]. cbn [scanLeft].
        destruct (0 <? w) eqn:H0; [lia|]. cbn [mbind outcome_bind scanRight].
        destruct (w - 1 >=? 0) eqn:H1; [lia|]. cbn [mbind outcome_bind].
        destruct ((0 >=? w) || (w - 1 <? 0) || (w - 1 <? 0)) eqn:Hc; [reflexivity | lia].
      * assert (Hh : h <= 0) by lia.
        rewrite (scanLeft_empty_height _ w h _ _ _ _ _ (Z.to_nat w) Hh
                   (computeMinHits_pos _ _) fuel 0) by lia.
        cbn [mbind outcome_bind].
        destruct fuel as [|fuel]; [lia|]. cbn [scanRight].
        destruct (w - 1 >=? w) eqn:H1; [lia|]. cbn [mbind outcome_bind].
        destruct ((w >=? w) || (w - 1 <? 0) || (w - 1 <? w)) eqn:Hc; [reflexivity | lia].
    + unfold computeHorizontalBounds. rewrite Hbpp.
      change (negb (4 =? 4)) with false. cbv iota.
      destruct ((w <=? 0) || (h <=? 0)) eqn:Hguard; [reflexivity | lia].
    + split; [intros [= Heq]; lia | intros ->; reflexivity].
    + cbn [right]. lia.
Qed.

Lemma harmony_scanner_vs_core_witness :
  exists bH bC,
    Harmony.computeHorizontalBounds 6 whiteDot 0%nat 3 0 defaultScan = Return bH /\
    computeHorizontalBounds 6 whiteDot (ArrayBuffer 0) 3 0 defaultScan = Return bC /\
    bH = {| left := 0; right := 3 - 1 |} /\
    bC = {| left := 0; right := 0 |} /\
    (bH = bC <-> 3 = 1) /\
    (right bH < 0 <-> 3 <= 0).
Proof.
  apply (harmony_scanner_vs_core whiteDot 0%nat 3 0 defaultScan 6).
  - reflexivity.
  - right. lia.
  - vm_compute. lia.
Defined.

End HarmonyFacts.

Section RescanFacts.
Import TrimCore TrimSpec ScanSpec.

Lemma byteSpan_lookup (v : list Z) (from n j : Z) :
  0 <= from -> 0 <= j < n ->
  byteSpan v from n !! Z.to_nat j = viewAt v (from + j).
Proof.
  intros Hfrom Hj. unfold byteSpan, viewAt.
  destruct (from + j <? 0) eqn:Hneg; [lia|].
  rewrite lookup_take. destruct (decide (Z.to_nat j < Z.to_nat n)%nat); [|lia].
  rewrite lookup_drop. f_equal. lia.
Qed.






End RescanFacts.

(** ** Facts about the PixelMap trimming unit *)

Section TrimUnitScan.
Import Trim TrimUnitSpec.

Variables (pixelBytes : list Z) (w h : Z) (offsets : ChannelOffsets) (t : Z).

Let col (x : Z) : Prop := columnHasBlack pixelBytes w h offsets t x.

Lemma hasBlackFrom_rows (n : nat) :
  forall x y,
    hasBlackFrom pixelBytes w offsets t n x y = true <->
    exists y', y <= y' < y + Z.of_nat n /\
      isBlackPixel pixelBytes ((y' * w + x) * bytesPerPixel offsets) offsets t = true.
Proof.
  induction n as [|n IH]; intros x y; cbn [hasBlackFrom].
  - split; [discriminate|]. intros (y' & Hy' & _). lia.
  - destruct (isBlackPixel pixelBytes ((y * w + x) * bytesPerPixel offsets) offsets t)
      eqn:Hb.
    + split; [|reflexivity]. intros _. exists y. split; [lia | exact Hb].
    + rewrite IH. split; intros (y' & Hy' & Hblack).
      * exists y'. split; [lia | exact Hblack].
      * exists y'. split; [|exact Hblack].
        destruct (decide (y' = y)) as [->|Hne]; [congruence | lia].
Qed.

Lemma hasBlackFrom_column (x : Z) :
  hasBlackFrom pixelBytes w offsets t (Z.to_nat h) x 0 = true <-> col x.
Proof.
  rewrite hasBlackFrom_rows. unfold col, columnHasBlack.
  split; intros (y & Hy & Hb); exists y; (split; [lia | exact Hb]).
Qed.

Lemma findLeft_first (n : nat) :
  forall x,
    let l := findLeft pixelBytes w h offsets t n x in
    (l = -1 /\ forall x', x <= x' < x + Z.of_nat n -> ~ col x') \/
    (x <= l < x + Z.of_nat n /\ col l /\ forall x', x <= x' < l -> ~ col x').
Proof.
  induction n as [|n IH]; intros x; cbn [findLeft].
  - left. split; [reflexivity|]. intros x' Hx'. lia.
  - destruct (hasBlackFrom pixelBytes w offsets t (Z.to_nat h) x 0) eqn:Hb.
    + right. split; [lia|]. split; [apply hasBlackFrom_column, Hb|].
      intros x' Hx'. lia.
    + assert (Hx : ~ col x).
      { intros Hc. apply hasBlackFrom_column in Hc. congruence. }
      destruct (IH (x + 1)) as [[Hl Hnone] | (Hl & Hc & Hbefore)].
      * left. split; [exact Hl|]. intros x' Hx'.
        destruct (decide (x' = x)) as [->|Hne]; [exact Hx | apply Hnone; lia].
      * right. split; [lia|]. split; [exact Hc|]. intros x' Hx'.
        destruct (decide (x' = x)) as [->|Hne]; [exact Hx | apply Hbefore; lia].
Qed.

Lemma findRight_last (n : nat) :
  forall x,
    let r := findRight pixelBytes w h offsets t n x in
    (r = -1 /\ forall x', x - Z.of_nat n < x' <= x -> ~ col x') \/
    (x - Z.of_nat n < r <= x /\ col r /\ forall x', r < x' <= x -> ~ col x').
Proof.
  induction n as [|n IH]; intros x; cbn [findRight].
  - left. split; [reflexivity|]. intros x' Hx'. lia.
  - destruct (hasBlackFrom pixelBytes w offsets t (Z.to_nat h) x 0) eqn:Hb.
    + right. split; [lia|]. split; [apply hasBlackFrom_column, Hb|].
      intros x' Hx'. lia.
    + assert (Hx : ~ col x).
      { intros Hc. apply hasBlackFrom_column in Hc. congruence. }
      destruct (IH (x - 1)) as [[Hr Hnone] | (Hr & Hc & Hafter)].
      * left. split; [exact Hr|]. intros x' Hx'.
        destruct (decide (x' = x)) as [->|Hne]; [exact Hx | apply Hnone; lia].
      * right. split; [lia|]. split; [exact Hc|]. intros x' Hx'.
        destruct (decide (x' = x)) as [->|Hne]; [exact Hx | apply Hafter; lia].
Qed.

Lemma scanEffective_cases :
  (scanEffectiveHorizontalBounds pixelBytes w h offsets t = None /\
   forall x, 0 <= x < w -> ~ col x) \/
  (exists l r,
     scanEffectiveHorizontalBounds pixelBytes w h offsets t
       = Some {| TrimCore.left := l; TrimCore.right := r |} /\
     0 <= l <= r /\ r < w /\ col l /\ col r /\
     forall x, 0 <= x < w -> col x -> l <= x <= r).
Proof.
  unfold scanEffectiveHorizontalBounds.
  pose proof (findLeft_first (Z.to_nat w) 0) as HL.
  pose proof (findRight_last (Z.to_nat w) (w - 1)) as HR.
  cbv zeta in HL, HR.
  set (l := findLeft pixelBytes w h offsets t (Z.to_nat w) 0) in *.
  set (r := findRight pixelBytes w h offsets t (Z.to_nat w) (w - 1)) in *.
  destruct HL as [[Hl Hnone] | (Hl & Hcl & Hbefore)].
  - left. rewrite Hl. split; [reflexivity|]. intros x Hx. apply Hnone. lia.
  - destruct HR as [[Hr Hnone] | (Hr & Hcr & Hafter)].
    + exfalso. apply (Hnone l); [lia | exact Hcl].
    + right. exists l, r.
      assert (Hlr : l <= r).
      { destruct (decide (l <= r)) as [?|Hn]; [assumption|].
        exfalso. apply (Hafter l); [lia | exact Hcl]. }
      destruct ((l <? 0) || (r <? 0) || (r <? l)) eqn:Hc; [lia|].
      split; [reflexivity|]. split; [lia|]. split; [lia|].
      split; [exact Hcl|]. split; [exact Hcr|].
      intros x Hx Hcx. split.
      * destruct (decide (l <= x)) as [?|Hn]; [assumption|].
        exfalso. apply (Hbefore x); [lia | exact Hcx].
      * destruct (decide (x <= r)) as [?|Hn]; [assumption|].
        exfalso. apply (Hafter x); [lia | exact Hcx].
Qed.

(** X16.  [scanEffectiveHorizontalBounds] returns [null] exactly when no
    column of the image has a black pixel, an empty image included; otherwise
    it returns the first and the last column that have one, with
    [0 <= left <= right < width]. *)
Theorem scanEffectiveHorizontalBounds_first_last :
  (scanEffectiveHorizontalBounds pixelBytes w h offsets t = None <->
   forall x, 0 <= x < w -> ~ columnHasBlack pixelBytes w h offsets t x) /\
  (forall b,
     scanEffectiveHorizontalBounds pixelBytes w h offsets t = Some b ->
     0 <= TrimCore.left b <= TrimCore.right b /\ TrimCore.right b < w /\
     columnHasBlack pixelBytes w h offsets t (TrimCore.left b) /\
     columnHasBlack pixelBytes w h offsets t (TrimCore.right b) /\
     forall x, 0 <= x < w -> columnHasBlack pixelBytes w h offsets t x ->
               TrimCore.left b <= x <= TrimCore.right b).
Proof.
  destruct scanEffective_cases
    as [[Hnone Hno] | (l & r & Hsome & Hlr & Hr & Hcl & Hcr & Hall)].
  - split.
    + split; [intros _; exact Hno | intros _; exact Hnone].
    + intros b Hb. congruence.
  - split.
    + split; [congruence|]. intros Hno. exfalso.
      apply (Hno l); [lia | exact Hcl].
    + intros b Hb. assert (b = {| TrimCore.left := l; TrimCore.right := r |})
        as -> by congruence.
      cbn [TrimCore.left TrimCore.right]. auto.
Qed.

End TrimUnitScan.

Section TrimUnitBody.
Import Trim TrimUnitSpec.

Variables (RGBA_8888 BGRA_8888 ARGB_8888 : Z).

Let offsetsOf (pm : PixelMap) : ChannelOffsets :=
  getChannelOffsets RGBA_8888 BGRA_8888 ARGB_8888
    (default RGBA_8888 (pixelFormat pm)).

Lemma getChannelOffsets_range (f : Z) :
  let o := getChannelOffsets RGBA_8888 BGRA_8888 ARGB_8888 f in
  bytesPerPixel o = 4 /\ 0 <= redOffset o < 4 /\ 0 <= greenOffset o < 4 /\
  0 <= blueOffset o < 4.
Proof.
  unfold getChannelOffsets.
  destruct (f =? RGBA_8888); [cbn; lia|].
  destruct (f =? BGRA_8888); [cbn; lia|].
  destruct (f =? ARGB_8888); cbn; lia.
Qed.

(** What the shared body does with a PixelMap that holds [w * h * 4] bytes. *)
Lemma trimBody_cases (pm : PixelMap) (t : Z) :
  Z.of_nat (length (pixels pm)) = imageWidth pm * imageHeight pm * 4 ->
  (trimBody RGBA_8888 BGRA_8888 ARGB_8888 pm t = Return Original /\
   ((forall x, 0 <= x < imageWidth pm ->
       ~ columnHasBlack (pixels pm) (imageWidth pm) (imageHeight pm)
           (offsetsOf pm) t x) \/
    (columnHasBlack (pixels pm) (imageWidth pm) (imageHeight pm) (offsetsOf pm) t 0 /\
     columnHasBlack (pixels pm) (imageWidth pm) (imageHeight pm) (offsetsOf pm) t
       (imageWidth pm - 1)))) \/
  (exists l r cropped,
     trimBody RGBA_8888 BGRA_8888 ARGB_8888 pm t
       = Return (Created {| pixels := cropped; imageWidth := r - l + 1;
                            imageHeight := imageHeight pm;
                            pixelFormat := Some (default RGBA_8888 (pixelFormat pm)) |}) /\
     0 <= l <= r /\ r < imageWidth pm /\ r - l + 1 < imageWidth pm /\
     1 <= imageHeight pm /\
     columnHasBlack (pixels pm) (imageWidth pm) (imageHeight pm) (offsetsOf pm) t l /\
     columnHasBlack (pixels pm) (imageWidth pm) (imageHeight pm) (offsetsOf pm) t r /\
     (forall x, 0 <= x < imageWidth pm ->
        columnHasBlack (pixels pm) (imageWidth pm) (imageHeight pm) (offsetsOf pm) t x ->
        l <= x <= r) /\
     Z.of_nat (length cropped) = (r - l + 1) * imageHeight pm * 4 /\
     forall y, 0 <= y < imageHeight pm ->
       TrimSpec.byteSpan cropped (y * ((r - l + 1) * 4)) ((r - l + 1) * 4)
       = TrimSpec.byteSpan (pixels pm) ((y * imageWidth pm + l) * 4) ((r - l + 1) * 4)).
Proof.
  intros Hsize. unfold trimBody. fold (offsetsOf pm).
  destruct (getChannelOffsets_range (default RGBA_8888 (pixelFormat pm)))
    as (Hbpp & _). fold (offsetsOf pm) in Hbpp.
  set (w := imageWidth pm) in *. set (h := imageHeight pm) in *.
  destruct (scanEffective_cases (pixels pm) w h (offsetsOf pm) t)
    as [[Hnone Hno] | (l & r & Hsome & Hlr & Hr & Hcl & Hcr & Hall)].
  - rewrite Hnone. left. split; [reflexivity|]. left. exact Hno.
  - rewrite Hsome. cbn [TrimCore.left TrimCore.right].
    destruct ((r - l + 1 <=? 0) || (r - l + 1 =? w)) eqn:Hfull.
    + left. split; [reflexivity|]. right.
      assert (l = 0) as -> by lia. assert (r = w - 1) as -> by lia.
      split; assumption.
    + right. exists l, r.
      assert (Hh : 1 <= h).
      { destruct Hcl as (y & Hy & _). lia. }
      rewrite Hbpp. unfold TrimCore.newUint8Array.
      set (cw := r - l + 1) in *.
      destruct (cw * h * 4 <? 0) eqn:Hneg; [nia|].
      cbn [mbind outcome_bind].
      set (zeros := replicate (Z.to_nat (cw * h * 4)) 0).
      assert (Hzlen : Z.of_nat (length zeros) = h * (cw * 4)).
      { unfold zeros. rewrite length_replicate. nia. }
      destruct (cropRows_total (pixels pm) w l cw 4 (Z.to_nat h) 0 zeros)
        as (out & Hrows & _); [lia | lia | lia |].
      rewrite Hrows. cbn [mbind outcome_bind].
      destruct (cropRows_rows (pixels pm) w h l cw Hsize ltac:(lia) ltac:(lia)
                  ltac:(lia) (Z.to_nat h) 0 zeros out ltac:(lia) ltac:(lia) Hzlen
                  ltac:(intros; lia) Hrows) as [Hlen Hspans].
      exists out. split; [reflexivity|].
      split; [lia|]. split; [lia|]. split; [lia|]. split; [exact Hh|].
      split; [exact Hcl|]. split; [exact Hcr|]. split; [exact Hall|].
      split; [lia | exact Hspans].
Qed.

(** X17.  On a PixelMap that holds [width * height * 4] bytes,
    [trimHorizontalMarginsByBlack] never throws.  It hands back the PixelMap
    it was given when no column has a black pixel, or when the first and the
    last column both have one.  Otherwise it creates a PixelMap of the same
    height and format, narrower than the source, whose columns are the source
    columns from the first to the last that has a black pixel, row by row and
    byte for byte. *)
Theorem trimHorizontalMarginsByBlack_contract (pm : PixelMap) (threshold : option Z) :
  Z.of_nat (length (pixels pm)) = imageWidth pm * imageHeight pm * 4 ->
  (trimHorizontalMarginsByBlack RGBA_8888 BGRA_8888 ARGB_8888 pm threshold
     = Return Original /\
   ((forall x, 0 <= x < imageWidth pm ->
       ~ columnHasBlack (pixels pm) (imageWidth pm) (imageHeight pm)
           (getChannelOffsets RGBA_8888 BGRA_8888 ARGB_8888
              (default RGBA_8888 (pixelFormat pm)))
           (default 48 threshold) x) \/
    (columnHasBlack (pixels pm) (imageWidth pm) (imageHeight pm)
       (getChannelOffsets RGBA_8888 BGRA_8888 ARGB_8888
          (default RGBA_8888 (pixelFormat pm)))
       (default 48 threshold) 0 /\
     columnHasBlack (pixels pm) (imageWidth pm) (imageHeight pm)
       (getChannelOffsets RGBA_8888 BGRA_8888 ARGB_8888
          (default RGBA_8888 (pixelFormat pm)))
       (default 48 threshold) (imageWidth pm - 1)))) \/
  (exists l r cropped,
     trimHorizontalMarginsByBlack RGBA_8888 BGRA_8888 ARGB_8888 pm threshold
       = Return (Created {| pixels := cropped; imageWidth := r - l + 1;
                            imageHeight := imageHeight pm;
                            pixelFormat := Some (default RGBA_8888 (pixelFormat pm)) |}) /\
     0 <= l <= r /\ r < imageWidth pm /\ r - l + 1 < imageWidth pm /\
     columnHasBlack (pixels pm) (imageWidth pm) (imageHeight pm)
       (getChannelOffsets RGBA_8888 BGRA_8888 ARGB_8888
          (default RGBA_8888 (pixelFormat pm)))
       (default 48 threshold) l /\
     columnHasBlack (pixels pm) (imageWidth pm) (imageHeight pm)
       (getChannelOffsets RGBA_8888 BGRA_8888 ARGB_8888
          (default RGBA_8888 (pixelFormat pm)))
       (default 48 threshold) r /\
     (forall x, 0 <= x < imageWidth pm ->
        columnHasBlack (pixels pm) (imageWidth pm) (imageHeight pm)
          (getChannelOffsets RGBA_8888 BGRA_8888 ARGB_8888
             (default RGBA_8888 (pixelFormat pm)))
          (default 48 threshold) x ->
        l <= x <= r) /\
     Z.of_nat (length cropped) = (r - l + 1) * imageHeight pm * 4 /\
     forall y, 0 <= y < imageHeight pm ->
       TrimSpec.byteSpan cropped (y * ((r - l + 1) * 4)) ((r - l + 1) * 4)
       = TrimSpec.byteSpan (pixels pm) ((y * imageWidth pm + l) * 4) ((r - l + 1) * 4)).
Proof.
  intros Hsize. unfold trimHorizontalMarginsByBlack.
  destruct (trimBody_cases pm (default 48 threshold) Hsize)
    as [Horig | (l & r & cropped & Hrun & Hlr & Hr & Hnarrow & _ & Hcl & Hcr &
                 Hall & Hlen & Hspans)].
  - left. exact Horig.
  - right. exists l, r, cropped. auto 10.
Qed.

End TrimUnitBody.

Section TrimUnitExamples.
Import Trim TrimUnitSpec TrimUnitData.

Lemma trimHorizontalMarginsByBlack_contract_witness :
  exists r, trimHorizontalMarginsByBlack 3 4 1 bandMap None = Return r.
Proof.
  destruct (trimHorizontalMarginsByBlack_contract 3 4 1 bandMap None eq_refl)
    as [[Hrun _] | (l & r & cropped & Hrun & _)]; eexists; exact Hrun.
Defined.

End TrimUnitExamples.

Section TrimUnitIdempotence.
Import Trim TrimUnitSpec.

Variables (RGBA_8888 BGRA_8888 ARGB_8888 : Z).

Lemma cropped_byte (out src : list Z) (w cw L x y k : Z) :
  0 <= L -> 0 <= w -> 0 <= y -> 0 <= x < cw -> 0 <= k < 4 ->
  TrimSpec.byteSpan out (y * (cw * 4)) (cw * 4)
    = TrimSpec.byteSpan src ((y * w + L) * 4) (cw * 4) ->
  TrimCore.viewAt out ((y * cw + x) * 4 + k)
  = TrimCore.viewAt src ((y * w + (L + x)) * 4 + k).
Proof.
  intros HL Hw Hy Hx Hk Hspan.
  replace ((y * cw + x) * 4 + k) with (y * (cw * 4) + (4 * x + k)) by lia.
  replace ((y * w + (L + x)) * 4 + k) with ((y * w + L) * 4 + (4 * x + k)) by lia.
  rewrite <- (byteSpan_lookup out (y * (cw * 4)) (cw * 4) (4 * x + k)) by nia.
  rewrite <- (byteSpan_lookup src ((y * w + L) * 4) (cw * 4) (4 * x + k)) by nia.
  rewrite Hspan. reflexivity.
Qed.

(** X18.  [dealWithCodel128] is idempotent.  On a PixelMap that holds
    [width * height * 4] bytes it never throws, whatever the scan type; what
    it hands back has the same height, again holds [width * height * 4] bytes
    and is no wider than the source; and a second call on that result hands
    it back as it is. *)
Theorem dealWithCodel128_idempotent (pm : PixelMap) (scanType : option Z) :
  Z.of_nat (length (pixels pm)) = imageWidth pm * imageHeight pm * 4 ->
  exists r1,
    dealWithCodel128 RGBA_8888 BGRA_8888 ARGB_8888 pm scanType = Return r1 /\
    imageHeight (resolve pm r1) = imageHeight pm /\
    imageWidth (resolve pm r1) <= imageWidth pm /\
    Z.of_nat (length (pixels (resolve pm r1)))
      = imageWidth (resolve pm r1) * imageHeight (resolve pm r1) * 4 /\
    dealWithCodel128 RGBA_8888 BGRA_8888 ARGB_8888 (resolve pm r1) scanType
      = Return Original.
Proof.
  intros Hsize. unfold dealWithCodel128.
  destruct (negb (bool_decide (scanType = Some CODE128_CODE))) eqn:Hgate.
  - exists Original. cbn [resolve].
    split; [reflexivity|]. split; [reflexivity|]. split; [lia|].
    split; [exact Hsize | reflexivity].
  - destruct (trimBody_cases RGBA_8888 BGRA_8888 ARGB_8888 pm 48 Hsize)
      as [[Hrun _] | (l & r & cropped & Hrun & Hlr & Hr & Hnarrow & Hh & Hcl & Hcr &
                      _ & Hlen & Hspans)].
    + exists Original. cbn [resolve].
      split; [exact Hrun|]. split; [reflexivity|]. split; [lia|].
      split; [exact Hsize | exact Hrun].
    + eexists. split; [exact Hrun|]. cbn [resolve imageHeight imageWidth pixels].
      split; [reflexivity|]. split; [lia|]. split; [exact Hlen|].
      set (fmt := default RGBA_8888 (pixelFormat pm)) in *.
      set (offs := getChannelOffsets RGBA_8888 BGRA_8888 ARGB_8888 fmt) in *.
      set (cw := r - l + 1) in *.
      set (pm1 := {| pixels := cropped; imageWidth := cw;
                     imageHeight := imageHeight pm; pixelFormat := Some fmt |}).
      destruct (getChannelOffsets_range RGBA_8888 BGRA_8888 ARGB_8888 fmt)
        as (Hbpp & Hro & Hgo & Hbo). fold offs in Hbpp, Hro, Hgo, Hbo.
      assert (Hshift : forall x, 0 <= x < cw ->
                columnHasBlack (pixels pm) (imageWidth pm) (imageHeight pm) offs 48
                  (l + x) ->
                columnHasBlack cropped cw (imageHeight pm) offs 48 x).
      { intros x Hx (y & Hy & Hblack). exists y. split; [exact Hy|].
        rewrite Hbpp in *. unfold isBlackPixel in *.
        rewrite !(cropped_byte cropped (pixels pm) (imageWidth pm) cw l x y)
          by (try lia; apply Hspans; lia).
        exact Hblack. }
      destruct (trimBody_cases RGBA_8888 BGRA_8888 ARGB_8888 pm1 48)
        as [[Hrun1 _] | (l1 & r1 & c1 & _ & Hlr1 & Hr1 & Hnarrow1 & _ & _ & _ &
                         Hall1 & _)].
      * cbn [pm1 pixels imageWidth imageHeight]. exact Hlen.
      * exact Hrun1.
      * exfalso. cbn [pm1 pixels imageWidth imageHeight pixelFormat] in *.
        change (default RGBA_8888 (Some fmt)) with fmt in Hall1. fold offs in Hall1.
        pose proof (Hall1 0 ltac:(lia)
                      (Hshift 0 ltac:(lia) ltac:(replace (l + 0) with l by lia; exact Hcl))).
        pose proof (Hall1 (cw - 1) ltac:(lia)
                      (Hshift (cw - 1) ltac:(lia)
                         ltac:(replace (l + (cw - 1)) with r by lia; exact Hcr))).
        lia.
Qed.

End TrimUnitIdempotence.

Section TrimUnitIdempotenceExample.
Import Trim TrimUnitSpec TrimUnitData.

Lemma dealWithCodel128_idempotent_witness :
  exists r1,
    dealWithCodel128 3 4 1 bandMap (Some 104) = Return r1 /\
    imageHeight (resolve bandMap r1) = imageHeight bandMap /\
    imageWidth (resolve bandMap r1) <= imageWidth bandMap /\
    Z.of_nat (length (pixels (resolve bandMap r1)))
      = imageWidth (resolve bandMap r1) * imageHeight (resolve bandMap r1) * 4 /\
    dealWithCodel128 3 4 1 (resolve bandMap r1) (Some 104) = Return Original.
Proof.
  apply (dealWithCodel128_idempotent 3 4 1 bandMap (Some 104)). reflexivity.
Defined.

End TrimUnitIdempotenceExample.

(** ** Facts about the self-test *)

Section TypedWriteFacts.
Import Trim.

Lemma length_typedWrite (b : list Z) (i v : Z) :
  length (typedWrite b i v) = length b.
Proof. unfold typedWrite. destruct (i <? 0); [reflexivity | apply length_insert]. Qed.

Lemma viewAt_typedWrite_same (b : list Z) (i v : Z) :
  0 <= i < Z.of_nat (length b) ->
  TrimCore.viewAt (typedWrite b i v) i = Some v.
Proof.
  intros Hi. unfold typedWrite, TrimCore.viewAt.
  destruct (i <? 0) eqn:Hneg; [lia|]. apply list_lookup_insert_eq. lia.
Qed.

Lemma viewAt_typedWrite_other (b : list Z) (i j v : Z) :
  i <> j -> TrimCore.viewAt (typedWrite b i v) j = TrimCore.viewAt b j.
Proof.
  intros Hne. unfold typedWrite, TrimCore.viewAt.
  destruct (i <? 0) eqn:Hi; [reflexivity|].
  destruct (j <? 0) eqn:Hj; [reflexivity|].
  apply list_lookup_insert_ne. lia.
Qed.

End TypedWriteFacts.

Section SyntheticFacts.
Import Trim TrimUnitSpec.

Variables (RGBA_8888 BGRA_8888 ARGB_8888 : Z).
Variables (W H lm rm bw : Z).
Hypothesis HW : 0 <= W.
Hypothesis HH : 0 <= H.

Let shade (x : Z) : Z := if syntheticBlack W lm rm bw x then 0 else 255.

Let pixelIs (bytes : list Z) (x y : Z) : Prop :=
  TrimCore.viewAt bytes ((y * W + x) * 4 + 0) = Some (shade x) /\
  TrimCore.viewAt bytes ((y * W + x) * 4 + 1) = Some (shade x) /\
  TrimCore.viewAt bytes ((y * W + x) * 4 + 2) = Some (shade x) /\
  TrimCore.viewAt bytes ((y * W + x) * 4 + 3) = Some 255.

Let filled (bytes : list Z) (m : Z) : Prop :=
  forall x y, 0 <= x < W -> 0 <= y < H -> y * W + x < m -> pixelIs bytes x y.

Lemma fillRow_filled (n : nat) :
  forall (y x : Z) (bytes : list Z),
    0 <= y < H -> 0 <= x -> x + Z.of_nat n = W ->
    Z.of_nat (length bytes) = W * H * 4 ->
    filled bytes (y * W + x) ->
    Z.of_nat (length (fillRow W lm rm bw n y x bytes)) = W * H * 4 /\
    filled (fillRow W lm rm bw n y x bytes) (y * W + W).
Proof.
  induction n as [|n IH]; intros y x bytes Hy Hx Hn Hlen Hfilled; cbn [fillRow].
  - split; [exact Hlen|]. replace W with x at 2 by lia. exact Hfilled.
  - fold (shade x).
    set (i := (y * W + x) * 4).
    assert (Hi : 0 <= i /\ i + 3 < W * H * 4) by (unfold i; nia).
    match goal with
    | |- context [fillRow _ _ _ _ n y (x + 1) ?b] => set (bytes' := b)
    end.
    assert (Hlen' : Z.of_nat (length bytes') = W * H * 4).
    { unfold bytes'. rewrite !length_typedWrite. exact Hlen. }
    apply IH; [exact Hy | lia | lia | exact Hlen' |].
    intros x' y' Hx' Hy' Hbefore.
    destruct (decide (y' * W + x' = y * W + x)) as [Heq | Hne].
    + assert (Hyy : y' = y).
      { destruct (Z.lt_trichotomy y' y) as [Hlt | [Heqy | Hgt]]; [|exact Heqy|].
        - assert (0 <= (y - y' - 1) * W) by (apply Z.mul_nonneg_nonneg; lia). lia.
        - assert (0 <= (y' - y - 1) * W) by (apply Z.mul_nonneg_nonneg; lia). lia. }
      subst y'. assert (x' = x) as -> by lia.
      fold i. unfold pixelIs, bytes'. repeat split.
      * rewrite !viewAt_typedWrite_other by lia.
        apply viewAt_typedWrite_same. lia.
      * rewrite !viewAt_typedWrite_other by lia.
        apply viewAt_typedWrite_same. rewrite length_typedWrite. lia.
      * rewrite !viewAt_typedWrite_other by lia.
        apply viewAt_typedWrite_same. rewrite !length_typedWrite. lia.
      * apply viewAt_typedWrite_same. rewrite !length_typedWrite. lia.
    + destruct (Hfilled x' y' Hx' Hy' ltac:(lia)) as (H0 & H1 & H2 & H3).
      unfold pixelIs, bytes'.
      rewrite !viewAt_typedWrite_other by (unfold i; lia).
      repeat split; assumption.
Qed.

Lemma fillRows_filled (n : nat) :
  forall (y : Z) (bytes : list Z),
    0 <= y -> y + Z.of_nat n = H ->
    Z.of_nat (length bytes) = W * H * 4 ->
    filled bytes (y * W) ->
    Z.of_nat (length (fillRows W lm rm bw n y bytes)) = W * H * 4 /\
    filled (fillRows W lm rm bw n y bytes) (H * W).
Proof.
  induction n as [|n IH]; intros y bytes Hy Hn Hlen Hfilled; cbn [fillRows].
  - split; [exact Hlen|]. replace H with y by lia. exact Hfilled.
  - destruct (fillRow_filled (Z.to_nat W) y 0 bytes) as [Hlen' Hfilled'];
      [lia | lia | lia | exact Hlen | |].
    { replace (y * W + 0) with (y * W) by lia. exact Hfilled. }
    apply IH; [lia | lia | exact Hlen' |].
    replace ((y + 1) * W) with (y * W + W) by lia. exact Hfilled'.
Qed.

(** The generator returns a PixelMap of [W * H * 4] bytes in which the pixel
    at [(x, y)] is black or white as [syntheticBlack x] says, and opaque. *)
Lemma createSynthetic_pixels :
  exists bytes,
    createSyntheticBarcodePixelMap RGBA_8888 W H lm rm bw
      = Return {| pixels := bytes; imageWidth := W; imageHeight := H;
                  pixelFormat := Some RGBA_8888 |} /\
    Z.of_nat (length bytes) = W * H * 4 /\
    forall x y, 0 <= x < W -> 0 <= y < H -> pixelIs bytes x y.
Proof.
  unfold createSyntheticBarcodePixelMap, TrimCore.newUint8Array.
  destruct (W * H * 4 <? 0) eqn:Hneg; [nia|]. cbn [mbind outcome_bind].
  destruct (fillRows_filled (Z.to_nat H) 0 (replicate (Z.to_nat (W * H * 4)) 0))
    as [Hlen Hfilled]; [lia | lia | rewrite length_replicate; lia | |].
  { intros x y Hx Hy Hlt. nia. }
  eexists. split; [reflexivity|]. split; [exact Hlen|].
  intros x y Hx Hy. apply Hfilled; [exact Hx | exact Hy | nia].
Qed.

Lemma synthetic_isBlackPixel (bytes : list Z) (x y : Z) :
  pixelIs bytes x y ->
  isBlackPixel bytes
    ((y * W + x) * bytesPerPixel
       (getChannelOffsets RGBA_8888 BGRA_8888 ARGB_8888 RGBA_8888))
    (getChannelOffsets RGBA_8888 BGRA_8888 ARGB_8888 RGBA_8888) 48
  = syntheticBlack W lm rm bw x.
Proof.
  intros (H0 & H1 & H2 & _). unfold getChannelOffsets.
  rewrite Z.eqb_refl. unfold isBlackPixel.
  cbn [redOffset greenOffset blueOffset bytesPerPixel].
  rewrite H0, H1, H2. unfold shade.
  destruct (syntheticBlack W lm rm bw x); reflexivity.
Qed.

End SyntheticFacts.

Section SelfTestFacts.
Import Trim TrimUnitSpec.

Variables (RGBA_8888 BGRA_8888 ARGB_8888 : Z).

Lemma rem2_even (s : Z) : 0 <= s -> (Z.rem s 2 =? 0) = Z.even s.
Proof.
  intros Hs. rewrite Z.rem_mod_nonneg by lia. rewrite Zmod_even.
  destruct (Z.even s); reflexivity.
Qed.

Lemma div_slot (rel bw s : Z) :
  1 <= bw -> s * bw <= rel < (s + 1) * bw -> rel / bw = s.
Proof.
  intros Hbw Hrel. symmetry. apply (Z.div_unique rel bw s (rel - s * bw)); lia.
Qed.

(** The last bar column of [n] columns of bars, [bw] columns per slot. *)
Lemma lastBlackOffset_last (n bw : Z) :
  1 <= n -> 1 <= bw ->
  0 <= lastBlackOffset n bw <= n - 1 /\
  Z.even (lastBlackOffset n bw / bw) = true /\
  forall rel, lastBlackOffset n bw < rel <= n - 1 -> Z.even (rel / bw) = false.
Proof.
  intros Hn Hbw. unfold lastBlackOffset.
  set (s := (n - 1) / bw).
  assert (Hs : 0 <= s) by (apply Z.div_pos; lia).
  pose proof (Z.div_mod (n - 1) bw ltac:(lia)) as Hdm.
  pose proof (Z.mod_pos_bound (n - 1) bw ltac:(lia)) as Hmb.
  fold s in Hdm.
  destruct (Z.even s) eqn:Heven.
  - split; [lia|]. split; [exact Heven|]. intros rel Hrel. lia.
  - assert (Hs1 : 1 <= s).
    { destruct (decide (s = 0)) as [H0|H0]; [rewrite H0 in Heven; discriminate | lia]. }
    assert (Hprev : (s * bw - 1) / bw = s - 1) by (apply div_slot; nia).
    split; [nia|]. split.
    + rewrite Hprev. replace (s - 1) with (Z.pred s) by lia.
      rewrite Z.even_pred. rewrite <- Z.negb_even, Heven. reflexivity.
    + intros rel Hrel. rewrite (div_slot rel bw s) by nia. exact Heven.
Qed.

Section Parameters.
Variables (W H lm rm bw : Z).
Hypothesis HH : 1 <= H.
Hypothesis Hlm : 0 <= lm.
Hypothesis Hrm : 0 <= rm.
Hypothesis Hbars : 1 <= W - lm - rm.
Hypothesis Hbw : 1 <= bw.

Lemma syntheticBlack_inside (x : Z) :
  syntheticBlack W lm rm bw x = true <->
  lm <= x < W - rm /\ Z.even ((x - lm) / bw) = true.
Proof.
  unfold syntheticBlack.
  destruct ((x >=? lm) && (x <? W - rm)) eqn:Hin.
  - destruct (bw =? 0) eqn:Hz; [lia|].
    rewrite rem2_even by (apply Z.div_pos; lia).
    split; [intros He; split; [lia | exact He] | intros [_ He]; exact He].
  - split; [discriminate | intros [Hx _]; lia].
Qed.

Lemma syntheticBlack_bounds :
  syntheticBlack W lm rm bw lm = true /\
  syntheticBlack W lm rm bw (lm + lastBlackOffset (W - lm - rm) bw) = true /\
  forall x, syntheticBlack W lm rm bw x = true ->
            lm <= x <= lm + lastBlackOffset (W - lm - rm) bw.
Proof.
  destruct (lastBlackOffset_last (W - lm - rm) bw Hbars Hbw)
    as (Hrange & Heven & Hafter).
  split; [|split].
  - apply syntheticBlack_inside. split; [lia|].
    replace (lm - lm) with 0 by lia. rewrite Z.div_0_l by lia. reflexivity.
  - apply syntheticBlack_inside. split; [lia|].
    replace (lm + lastBlackOffset (W - lm - rm) bw - lm)
      with (lastBlackOffset (W - lm - rm) bw) by lia.
    exact Heven.
  - intros x Hx. apply syntheticBlack_inside in Hx as [Hin He].
    split; [lia|].
    destruct (decide (x - lm <= lastBlackOffset (W - lm - rm) bw)) as [?|Hgt]; [lia|].
    rewrite (Hafter (x - lm)) in He by lia. discriminate.
Qed.

(** A synthetic image, trimmed: same height, and as wide as the span from
    the left margin to the last black column. *)
Lemma synthetic_trimmed :
  exists pixelMap processed,
    createSyntheticBarcodePixelMap RGBA_8888 W H lm rm bw = Return pixelMap /\
    dealWithCodel128 RGBA_8888 BGRA_8888 ARGB_8888 pixelMap (Some CODE128_CODE)
      = Return processed /\
    imageHeight (resolve pixelMap processed) = H /\
    imageWidth (resolve pixelMap processed)
      = lastBlackOffset (W - lm - rm) bw + 1.
Proof.
  destruct (createSynthetic_pixels RGBA_8888 W H lm rm bw ltac:(lia) ltac:(lia))
    as (bytes & Hsynth & Hlen & Hpix).
  assert (Hcol : forall x, 0 <= x < W ->
            (columnHasBlack bytes W H
               (getChannelOffsets RGBA_8888 BGRA_8888 ARGB_8888 RGBA_8888) 48 x <->
             syntheticBlack W lm rm bw x = true)).
  { intros x Hx. unfold columnHasBlack. split.
    - intros (y & Hy & Hb).
      rewrite (synthetic_isBlackPixel RGBA_8888 BGRA_8888 ARGB_8888 W lm rm bw)
        in Hb by (apply Hpix; lia).
      exact Hb.
    - intros Hb. exists 0. split; [lia|].
      rewrite (synthetic_isBlackPixel RGBA_8888 BGRA_8888 ARGB_8888 W lm rm bw)
        by (apply Hpix; lia).
      exact Hb. }
  destruct syntheticBlack_bounds as (Hfirst & Hlast & Hall).
  destruct (lastBlackOffset_last (W - lm - rm) bw Hbars Hbw) as (Hrange & _ & _).
  set (last := lastBlackOffset (W - lm - rm) bw) in *.
  eexists. 
  destruct (trimBody_cases RGBA_8888 BGRA_8888 ARGB_8888
              {| pixels := bytes; imageWidth := W; imageHeight := H;
                 pixelFormat := Some RGBA_8888 |} 48 Hlen)
    as [[Hret [Hnone | [Hc0 Hcw]]] | (l & r & cropped & Hret & Hlr & Hr & _ & _ &
                                        Hcl & Hcr & Hbetween & _)];
    cbn [pixels imageWidth imageHeight pixelFormat from_option id] in *.
  - exfalso. apply (Hnone lm); [lia|]. apply Hcol; [lia | exact Hfirst].
  - exists Original. split; [exact Hsynth|]. split.
    { unfold dealWithCodel128. rewrite bool_decide_eq_true_2 by reflexivity.
      exact Hret. }
    cbn [resolve imageWidth imageHeight]. split; [reflexivity|].
    apply Hcol in Hc0; [|lia]. apply Hcol in Hcw; [|lia].
    pose proof (Hall _ Hc0). pose proof (Hall _ Hcw).
    apply syntheticBlack_inside in Hcw. lia.
  - eexists. split; [exact Hsynth|]. split.
    { unfold dealWithCodel128. rewrite bool_decide_eq_true_2 by reflexivity.
      exact Hret. }
    cbn [resolve imageWidth imageHeight]. split; [reflexivity|].
    apply Hcol in Hcl; [|lia]. apply Hcol in Hcr; [|lia].
    pose proof (Hall _ Hcl). pose proof (Hall _ Hcr).
    pose proof (Hbetween lm ltac:(lia) (proj2 (Hcol lm ltac:(lia)) Hfirst)).
    pose proof (Hbetween (lm + last) ltac:(lia)
                  (proj2 (Hcol (lm + last) ltac:(lia)) Hlast)).
    lia.
Qed.

(** X19.  What the self-test measures, for any sizes: a synthetic image with
    at least one column of bars, trimmed by [dealWithCodel128], keeps its
    height and comes out as wide as the span from the left margin to the last
    black column.  That is the distance between the margins only when the
    last slot of [barWidth] columns is a bar, that is when
    [(totalWidth - leftMargin - rightMargin - 1) / barWidth] is even. *)
Theorem synthetic_trimmed_width :
  exists pixelMap processed,
    createSyntheticBarcodePixelMap RGBA_8888 W H lm rm bw = Return pixelMap /\
    dealWithCodel128 RGBA_8888 BGRA_8888 ARGB_8888 pixelMap (Some CODE128_CODE)
      = Return processed /\
    imageHeight (resolve pixelMap processed) = H /\
    imageWidth (resolve pixelMap processed)
      = lastBlackOffset (W - lm - rm) bw + 1 /\
    (imageWidth (resolve pixelMap processed) = W - lm - rm <->
     Z.even ((W - lm - rm - 1) / bw) = true).
Proof.
  destruct synthetic_trimmed as (pm & processed & Hsynth & Hrun & Hh & Hw).
  exists pm, processed. split; [exact Hsynth|]. split; [exact Hrun|].
  split; [exact Hh|]. split; [exact Hw|]. rewrite Hw. unfold lastBlackOffset.
  pose proof (Z.div_mod (W - lm - rm - 1) bw ltac:(lia)) as Hdm.
  pose proof (Z.mod_pos_bound (W - lm - rm - 1) bw ltac:(lia)) as Hmb.
  destruct (Z.even ((W - lm - rm - 1) / bw)) eqn:Heven.
  - split; [reflexivity | lia].
  - split; [|discriminate]. intros Heq. exfalso. nia.
Qed.

End Parameters.

(** X20.  [runSelfTest] fails on its own expectation.  With the constants it
    is written with (400 x 120, margins 40 and 60, bars 3 columns wide) the
    last slot before the right margin is a space, so the trimmed image is 297
    columns wide, not the 300 the test expects, and the test throws. *)
Theorem runSelfTest_throws :
  runSelfTest RGBA_8888 BGRA_8888 ARGB_8888
  = Throw (Error (js "SelfTest failed: got 297x120, expected 300x120")).
Proof.
  destruct (synthetic_trimmed 400 120 40 60 3 ltac:(lia) ltac:(lia) ltac:(lia)
              ltac:(lia) ltac:(lia)) as (pm & processed & Hsynth & Hrun & Hh & Hw).
  unfold runSelfTest. cbv zeta. rewrite Hsynth. cbn [mbind outcome_bind].
  rewrite Hrun. cbn [mbind outcome_bind]. rewrite Hh, Hw.
  vm_compute. reflexivity.
Qed.

End SelfTestFacts.

Section SelfTestExamples.
Import Trim TrimUnitSpec.

Lemma synthetic_trimmed_width_witness :
  exists pixelMap processed,
    createSyntheticBarcodePixelMap 3 8 2 1 1 2 = Return pixelMap /\
    dealWithCodel128 3 4 1 pixelMap (Some CODE128_CODE) = Return processed /\
    imageHeight (resolve pixelMap processed) = 2 /\
    imageWidth (resolve pixelMap processed) = lastBlackOffset (8 - 1 - 1) 2 + 1 /\
    (imageWidth (resolve pixelMap processed) = 8 - 1 - 1 <->
     Z.even ((8 - 1 - 1 - 1) / 2) = true).
Proof.
  apply (synthetic_trimmed_width 3 4 1 8 2 1 1 2); lia.
Defined.

End SelfTestExamples.

(** ** The symbol determines the text, and the checksum guards it *)

Section DecodeFacts.
Import Code128 EncoderSpec RenderSpec ChecksumSpec.

Lemma patternDigits_inj (c d : Z) :
  0 <= c <= 105 -> 0 <= d <= 105 -> patternDigits c = patternDigits d -> c = d.
Proof.
  intros Hc Hd Heq.
  assert (Hall : patternsDistinct = true) by (vm_compute; reflexivity).
  unfold patternsDistinct in Hall. rewrite forallb_forall in Hall.
  specialize (Hall c ltac:(apply list_elem_of_In, elem_of_seqZ; lia)).
  rewrite forallb_forall in Hall.
  specialize (Hall d ltac:(apply list_elem_of_In, elem_of_seqZ; lia)).
  apply orb_prop in Hall as [Hcd | Hne]; [lia|].
  rewrite bool_decide_eq_true_2 in Hne by exact Heq. discriminate.
Qed.

Lemma patternDigits_length (c : Z) :
  0 <= c <= 105 -> length (patternDigits c) = 6%nat.
Proof.
  intros Hc. pose proof (dataShape_table c Hc) as Hs. unfold dataShape in Hs.
  apply andb_prop in Hs as [Hs _]. apply andb_prop in Hs as [H6 _].
  apply Nat.eqb_eq in H6. exact H6.
Qed.

Lemma expandCodes_inj (l : list Z) :
  forall k,
    Forall (fun c => 0 <= c <= 105) l -> Forall (fun c => 0 <= c <= 105) k ->
    expandCodes l = expandCodes k -> l = k.
Proof.
  induction l as [|c l IH]; intros [|d k] Hl Hk Heq.
  - reflexivity.
  - exfalso. inversion Hk as [|? ? Hd _]; subst.
    rewrite expandCodes_cons in Heq. apply (f_equal length) in Heq.
    rewrite length_app, (patternDigits_length d Hd) in Heq. simpl in Heq. lia.
  - exfalso. inversion Hl as [|? ? Hc _]; subst.
    rewrite expandCodes_cons in Heq. apply (f_equal length) in Heq.
    rewrite length_app, (patternDigits_length c Hc) in Heq. simpl in Heq. lia.
  - inversion Hl as [|? ? Hc Hl']; subst. inversion Hk as [|? ? Hd Hk']; subst.
    rewrite !expandCodes_cons in Heq.
    apply app_inj_1 in Heq as [Hhead Htail].
    + f_equal; [apply patternDigits_inj; assumption | apply IH; assumption].
    + rewrite !patternDigits_length by assumption. reflexivity.
Qed.

Lemma encode_returns_expand (text : jsstring) :
  Forall inSetB text ->
  encodeCode128BToModules text = Return (expandCodes (computeCodesForSetB text)).
Proof.
  intros Hvalid.
  destruct (encode_valid_returns text Hvalid) as [modules Henc].
  rewrite Henc. f_equal.
  unfold encodeCode128BToModules, assertCodeSetBCompatible in Henc.
  destruct (assertLoop text 0) as [[]| |]; try discriminate.
  cbn [mbind outcome_bind] in Henc. unfold codesToModules in Henc.
  cbv zeta in Henc.
  destruct (codesToModulesLoop_cases (computeCodesForSetB text) [])
    as [[_ Hrun] | (i & c & _ & _ & _ & Hthrow)]; [|congruence].
  cbn [app] in Hrun. congruence.
Qed.

(** X21.  The symbol determines the text: two texts of printable characters
    that encode to the same modules are the same text. *)
Theorem encodeCode128BToModules_injective (text text' : jsstring) :
  Forall inSetB text -> Forall inSetB text' ->
  encodeCode128BToModules text = encodeCode128BToModules text' ->
  text = text'.
Proof.
  intros Hv Hv' Heq.
  rewrite (encode_returns_expand text Hv), (encode_returns_expand text' Hv') in Heq.
  injection Heq as Heq.
  destruct (computeCodes_structure text Hv) as (data & Hcodes & _ & Hdata).
  destruct (computeCodes_structure text' Hv') as (data' & Hcodes' & _ & Hdata').
  rewrite Hcodes, Hcodes', !expandCodes_app in Heq.
  apply app_inv_tail in Heq.
  apply expandCodes_inj in Heq; [|assumption|assumption].
  rewrite computeCodes_form in Hcodes. rewrite computeCodes_form in Hcodes'.
  apply app_inv_tail in Hcodes. apply app_inv_tail in Hcodes'.
  injection Hcodes as Hdata_eq. injection Hcodes' as Hdata_eq'.
  injection Heq as Heq. rewrite <- Hdata_eq, <- Hdata_eq' in Heq.
  apply app_inj_tail in Heq as [Hmap _].
  revert Hmap. clear. revert text'.
  induction text as [|c text IH]; intros [|c' text'] Hmap; try discriminate.
  - reflexivity.
  - cbn [fmap list_fmap] in Hmap. injection Hmap as Hc Hrest.
    f_equal; [lia | apply IH, Hrest].
Qed.

Lemma encodeCode128BToModules_injective_witness : js "A1" = js "A1".
Proof.
  apply (encodeCode128BToModules_injective (js "A1") (js "A1")).
  - vm_compute. repeat constructor; discriminate.
  - vm_compute. repeat constructor; discriminate.
  - reflexivity.
Defined.

Lemma exactLoop_app (l k : jsstring) (a j : Z) :
  exactLoop a (l ++ k) j
  = exactLoop (exactLoop a l j) k (j + Z.of_nat (length l)).
Proof.
  revert a j; induction l as [|c l IH]; intros a j.
  - cbn. f_equal. lia.
  - cbn [app exactLoop length]. rewrite IH. f_equal. lia.
Qed.

Lemma checksumOf_value (text : jsstring) :
  Forall inSetB text -> Z.of_nat (length text) <= 13800000 ->
  checksumOf text = (104 + exactLoop 0 text 0) mod 103.
Proof.
  intros Hvalid Hlen. unfold checksumOf. rewrite computeCodes_form.
  rewrite lookup_app_l by (cbn [length]; rewrite length_app, length_fmap; simpl; lia).
  change ((104 :: ?l) !! S ?n) with (l !! n).
  rewrite lookup_app_r by (rewrite length_fmap; lia).
  rewrite length_fmap, Nat.sub_diag. cbn [lookup list_lookup from_option id].
  rewrite (checksumLoop_short text Hvalid Hlen), <- exactLoop_weightedSum.
  rewrite exactLoop_acc. unfold START_CODE_B.
  destruct (exactLoop_bounds text 0 0 Hvalid ltac:(lia)) as [Hlo _].
  apply Z.rem_mod_nonneg; lia.
Qed.

Lemma weights_separate (a k : Z) :
  1 <= a <= 94 -> 1 <= k <= 102 -> (a * k) mod 103 <> 0.
Proof.
  intros Ha Hk.
  assert (Hall : weightsSeparate = true) by (vm_compute; reflexivity).
  unfold weightsSeparate in Hall. rewrite forallb_forall in Hall.
  specialize (Hall a ltac:(apply list_elem_of_In, elem_of_seqZ; lia)).
  rewrite forallb_forall in Hall.
  specialize (Hall k ltac:(apply list_elem_of_In, elem_of_seqZ; lia)).
  destruct ((a * k) mod 103 =? 0) eqn:Hz; [discriminate | lia].
Qed.

Lemma mod_differ (s s' d : Z) :
  s - s' = d -> d mod 103 <> 0 -> s mod 103 <> s' mod 103.
Proof.
  intros Hd Hnz Heq. apply Hnz. rewrite <- Hd.
  rewrite Zminus_mod, Heq, Z.sub_diag. reflexivity.
Qed.

(** X22.  The checksum notices the two common keying errors.  Replacing one
    character of a text of at most 102 printable characters by another
    printable character changes the checksum code, and so does swapping two
    different neighbouring characters of a text of at most 13,800,000
    characters, the length up to which the sum of the code is exact. *)
Theorem checksum_detects (pre post : jsstring) (c c' : Z) :
  Forall inSetB pre -> Forall inSetB post -> inSetB c -> inSetB c' -> c <> c' ->
  ((length (pre ++ c :: post) <= 102)%nat ->
   checksumOf (pre ++ c :: post) <> checksumOf (pre ++ c' :: post)) /\
  (Z.of_nat (length (pre ++ c :: c' :: post)) <= 13800000 ->
   checksumOf (pre ++ c :: c' :: post) <> checksumOf (pre ++ c' :: c :: post)).
Proof.
  intros Hpre Hpost Hc Hc' Hne. unfold inSetB in Hc, Hc'.
  assert (Hv : forall l, Forall inSetB l -> Forall inSetB (pre ++ l)).
  { intros l Hl. apply Forall_app. split; assumption. }
  assert (Hacc : forall r a j, exactLoop a r j = a + exactLoop 0 r j).
  { intros r a j. apply exactLoop_acc. }
  split.
  - intros Hlen. rewrite length_app in Hlen. cbn [length] in Hlen.
    rewrite !checksumOf_value;
      try (apply Hv; constructor; [unfold inSetB; lia | assumption]);
      try (rewrite length_app; cbn [length]; lia).
    rewrite !exactLoop_app. cbn [exactLoop].
    rewrite (Hacc post (exactLoop 0 pre 0 + (c - 32) * _)),
            (Hacc post (exactLoop 0 pre 0 + (c' - 32) * _)).
    set (p := Z.of_nat (length pre)) in *.
    set (S0 := exactLoop 0 pre 0). set (S1 := exactLoop 0 post (0 + p + 1)).
    destruct (Z.lt_trichotomy c c') as [Hlt | [Heq | Hgt]]; [|lia|].
    + intros Heq. symmetry in Heq. revert Heq.
      apply (mod_differ _ _ ((c' - c) * (p + 1))); [lia|].
      apply weights_separate; lia.
    + apply (mod_differ _ _ ((c - c') * (p + 1))); [lia|].
      apply weights_separate; lia.
  - intros Hlen. rewrite length_app in Hlen. cbn [length] in Hlen.
    rewrite !checksumOf_value;
      try (apply Hv; repeat constructor; try assumption; unfold inSetB; lia);
      try (rewrite length_app; cbn [length]; lia).
    rewrite !exactLoop_app. cbn [exactLoop].
    rewrite (Hacc post (exactLoop 0 pre 0 + (c - 32) * _ + (c' - 32) * _)),
            (Hacc post (exactLoop 0 pre 0 + (c' - 32) * _ + (c - 32) * _)).
    set (p := Z.of_nat (length pre)) in *.
    set (S0 := exactLoop 0 pre 0). set (S1 := exactLoop 0 post (0 + p + 1 + 1)).
    destruct (Z.lt_trichotomy c c') as [Hlt | [Heq | Hgt]]; [|lia|].
    + apply (mod_differ _ _ ((c' - c) * 1)); [lia|].
      apply weights_separate; lia.
    + intros Heq. symmetry in Heq. revert Heq.
      apply (mod_differ _ _ ((c - c') * 1)); [lia|].
      apply weights_separate; lia.
Qed.

Lemma checksum_detects_witness :
  ((length (js "AB" ++ 67%Z :: js "D") <= 102)%nat ->
   checksumOf (js "AB" ++ 67 :: js "D") <> checksumOf (js "AB" ++ 68 :: js "D")) /\
  (Z.of_nat (length (js "AB" ++ 67 :: 68 :: js "D")) <= 13800000 ->
   checksumOf (js "AB" ++ 67 :: 68 :: js "D")
   <> checksumOf (js "AB" ++ 68 :: 67 :: js "D")).
Proof.
  apply (checksum_detects (js "AB") (js "D") 67 68).
  - vm_compute. repeat constructor; discriminate.
  - vm_compute. repeat constructor; discriminate.
  - unfold inSetB. lia.
  - unfold inSetB. lia.
  - lia.
Defined.

End DecodeFacts.

(** ** Crops compose *)

Section CropCompose.
Import TrimCore TrimSpec ScanSpec.

(** A crop that stays inside the image: what it returns, and how long. *)
Lemma cropHorizontalBuffer_inside (σ : store) (a : addr) (src : list Z)
    (w h L R : Z) :
  σ !! a = Some src -> Z.of_nat (length src) = w * h * 4 ->
  1 <= h -> 0 <= L <= R -> R < w ->
  exists out,
    cropHorizontalBuffer σ a w h L R None
      = Return ({| buffer := fresh (dom σ); width := R - L + 1; height := h |},
                <[fresh (dom σ) := out]> σ) /\
    Z.of_nat (length out) = h * ((R - L + 1) * 4) /\
    forall y, 0 <= y < h ->
      byteSpan out (y * ((R - L + 1) * 4)) ((R - L + 1) * 4)
      = byteSpan src ((y * w + L) * 4) ((R - L + 1) * 4).
Proof.
  intros Hsrc Hsize Hh HLR HR.
  unfold cropHorizontalBuffer, cropHorizontalBufferWith, newUint8Array. rewrite Hsrc.
  replace (Z.max 0 (R - L + 1)) with (R - L + 1) by lia.
  set (cw := R - L + 1). change (default [] (Some src)) with src.
  change (default 4 None) with 4.
  destruct (cw * h * 4 <? 0) eqn:Hneg; [nia|].
  cbn [mbind outcome_bind].
  set (zeros := replicate (Z.to_nat (cw * h * 4)) 0).
  assert (Hzlen : Z.of_nat (length zeros) = h * (cw * 4)).
  { unfold zeros. rewrite length_replicate. nia. }
  destruct ((cw =? 0) || (w =? 0) || (h =? 0)) eqn:Hdeg; [lia|].
  destruct (cropRows_total src w L cw 4 (Z.to_nat h) 0 zeros)
    as (out & Hrows & _); [lia | lia | lia |].
  rewrite Hrows. cbn [mbind outcome_bind]. unfold alloc.
  exists out. split; [reflexivity|].
  exact (cropRows_rows src w h L cw Hsize ltac:(lia) ltac:(lia) ltac:(lia)
           (Z.to_nat h) 0 zeros out ltac:(lia) ltac:(lia) Hzlen
           ltac:(intros; lia) Hrows).
Qed.

Lemma byteSpan_inner (u : list Z) (a n d m : Z) :
  0 <= a -> 0 <= d -> 0 <= m -> d + m <= n ->
  byteSpan u (a + d) m
  = drop (Z.to_nat d) (take (Z.to_nat (d + m)) (byteSpan u a n)).
Proof.
  intros Ha Hd Hm Hn. unfold byteSpan.
  rewrite take_take.
  replace (Z.to_nat (d + m) `min` Z.to_nat n)%nat with (Z.to_nat d + Z.to_nat m)%nat
    by lia.
  rewrite <- take_drop_commute, drop_drop.
  replace (Z.to_nat a + Z.to_nat d)%nat with (Z.to_nat (a + d)) by lia.
  reflexivity.
Qed.

Lemma byteSpan_sub (u v : list Z) (a b n d m : Z) :
  0 <= a -> 0 <= b -> 0 <= d -> 0 <= m -> d + m <= n ->
  byteSpan u a n = byteSpan v b n ->
  byteSpan u (a + d) m = byteSpan v (b + d) m.
Proof.
  intros Ha Hb Hd Hm Hn Heq.
  rewrite (byteSpan_inner u a n d m), (byteSpan_inner v b n d m) by assumption.
  rewrite Heq. reflexivity.
Qed.

(** Two buffers of [h] rows of [rl] bytes with the same rows are the same. *)
Lemma rows_determine (u v : list Z) (h rl : Z) :
  0 <= h -> 1 <= rl ->
  Z.of_nat (length u) = h * rl -> Z.of_nat (length v) = h * rl ->
  (forall y, 0 <= y < h -> byteSpan u (y * rl) rl = byteSpan v (y * rl) rl) ->
  u = v.
Proof.
  intros Hh Hrl Hu Hv Hrows. apply list_eq. intros i.
  destruct (decide (i < length u)%nat) as [Hi | Hi].
  - set (j := Z.of_nat i).
    assert (Hj : 0 <= j < h * rl) by lia.
    pose proof (Z.div_mod j rl ltac:(lia)) as Hdm.
    pose proof (Z.mod_pos_bound j rl ltac:(lia)) as Hmod.
    assert (Hy : 0 <= j / rl < h).
    { split; [apply Z.div_pos; lia | apply Z.div_lt_upper_bound; lia]. }
    assert (Hview : forall t : list Z, t !! i = viewAt t (j / rl * rl + j mod rl)).
    { intros t. unfold viewAt.
      destruct (j / rl * rl + j mod rl <? 0) eqn:Hneg; [lia|].
      f_equal. lia. }
    rewrite (Hview u), (Hview v).
    rewrite <- (byteSpan_lookup u (j / rl * rl) rl (j mod rl)) by nia.
    rewrite <- (byteSpan_lookup v (j / rl * rl) rl (j mod rl)) by nia.
    rewrite (Hrows (j / rl) Hy). reflexivity.
  - rewrite !lookup_ge_None_2 by lia. reflexivity.
Qed.

(** X23.  Crops compose.  Cropping a [w] x [h] image to columns [L..R] and
    the result to its columns [L'..R'] gives, in a new buffer, the same
    width, height and bytes as cropping the image once to columns
    [L + L' .. L + R'], and the bytes of the image itself are as before. *)
Theorem cropHorizontalBuffer_compose (σ : store) (a : addr) (src : list Z)
    (w h L R L' R' : Z) :
  σ !! a = Some src -> Z.of_nat (length src) = w * h * 4 ->
  1 <= h -> 0 <= L <= R -> R < w -> 0 <= L' <= R' -> R' < R - L + 1 ->
  exists c1 σ1 c2 σ2 c3 σ3,
    cropHorizontalBuffer σ a w h L R None = Return (c1, σ1) /\
    cropHorizontalBuffer σ1 (buffer c1) (width c1) (height c1) L' R' None
      = Return (c2, σ2) /\
    cropHorizontalBuffer σ a w h (L + L') (L + R') None = Return (c3, σ3) /\
    width c2 = width c3 /\ height c2 = height c3 /\
    σ2 !! buffer c2 = σ3 !! buffer c3 /\
    σ2 !! a = Some src.
Proof.
  intros Hsrc Hsize Hh HLR HR HLR' HR'.
  destruct (cropHorizontalBuffer_inside σ a src w h L R Hsrc Hsize Hh HLR HR)
    as (out1 & Hrun1 & Hlen1 & Hrows1).
  set (σ1 := <[fresh (dom σ) := out1]> σ) in *.
  assert (Hout1 : σ1 !! fresh (dom σ) = Some out1) by apply lookup_insert_eq.
  destruct (cropHorizontalBuffer_inside σ1 (fresh (dom σ)) out1 (R - L + 1) h L' R'
              Hout1 ltac:(lia) Hh HLR' HR')
    as (out2 & Hrun2 & Hlen2 & Hrows2).
  destruct (cropHorizontalBuffer_inside σ a src w h (L + L') (L + R')
              Hsrc Hsize Hh ltac:(lia) ltac:(lia))
    as (out3 & Hrun3 & Hlen3 & Hrows3).
  eexists _, _, _, _, _, _.
  split; [exact Hrun1|]. split; [exact Hrun2|]. split; [exact Hrun3|].
  cbn [buffer width height].
  split; [lia|]. split; [reflexivity|].
  assert (Hfresh1 : fresh (dom σ) <> a).
  { intros Heq. apply (is_fresh (dom σ)). rewrite Heq.
    apply elem_of_dom. eauto. }
  assert (Hfresh2 : fresh (dom σ1) <> a).
  { intros Heq. apply (is_fresh (dom σ1)). rewrite Heq.
    apply elem_of_dom. unfold σ1. rewrite lookup_insert_ne by exact Hfresh1. eauto. }
  split.
  - rewrite !lookup_insert_eq. f_equal.
    replace (L + R' - (L + L') + 1) with (R' - L' + 1) in * by lia.
    apply (rows_determine out2 out3 h ((R' - L' + 1) * 4)); [lia | lia | lia | lia |].
    intros y Hy. rewrite (Hrows2 y Hy), (Hrows3 y Hy).
    replace ((y * (R - L + 1) + L') * 4) with (y * ((R - L + 1) * 4) + L' * 4) by lia.
    replace ((y * w + (L + L')) * 4) with ((y * w + L) * 4 + L' * 4) by lia.
    apply (byteSpan_sub out1 src _ _ ((R - L + 1) * 4)); [nia | nia | lia | lia | lia |].
    apply Hrows1, Hy.
  - rewrite lookup_insert_ne by exact Hfresh2.
    unfold σ1. rewrite lookup_insert_ne by exact Hfresh1. exact Hsrc.
Qed.

End CropCompose.

Section CropComposeExample.
Import TrimCore TrimSpec.

Lemma cropHorizontalBuffer_compose_witness :
  exists c1 σ1 c2 σ2 c3 σ3,
    cropHorizontalBuffer bandImage 0%nat 3 2 0 2 None = Return (c1, σ1) /\
    cropHorizontalBuffer σ1 (buffer c1) (width c1) (height c1) 1 1 None
      = Return (c2, σ2) /\
    cropHorizontalBuffer bandImage 0%nat 3 2 (0 + 1) (0 + 1) None = Return (c3, σ3) /\
    width c2 = width c3 /\ height c2 = height c3 /\
    σ2 !! buffer c2 = σ3 !! buffer c3 /\
    σ2 !! 0%nat
    = Some [255; 255; 255; 255;  0; 0; 0; 255;  255; 255; 255; 255;
            255; 255; 255; 255;  0; 0; 0; 255;  255; 255; 255; 255].
Proof.
  apply (cropHorizontalBuffer_compose bandImage 0%nat _ 3 2 0 2 1 1).
  - reflexivity.
  - reflexivity.
  - lia.
  - lia.
  - lia.
  - lia.
  - lia.
Defined.

End CropComposeExample.
